(** * journal/send.go: the journald client, embedded and verified

    A shallow embedding of [src/journal/send.go].  Go strings are byte
    sequences and are modelled by [string] (a list of 8-bit characters);
    [[]byte] is [list byte]; Go's [int]/[uint64] are [Z] with the wrap-around
    written out.  Functions that touch the package variable [conn], standard
    error, the socket or the file system run in the monad [M] over [World];
    a run-time panic is the outcome [Panic]. *)

From Stdlib Require Import ZArith String Ascii List Lia.
From Stdlib Require Import DecimalString DecimalZ DecimalPos.
From Stdlib.Strings Require Import Byte.
From stdpp Require Import base option list gmap strings.
Import ListNotations.

Local Open Scope string_scope.
Local Open Scope list_scope.
Local Open Scope Z_scope.

(** ** Strings, bytes and runes *)

Definition nl : ascii := "010"%char.
Definition newline : string := String nl EmptyString.

(** [[]byte(s)]. *)
Definition bytes (s : string) : list byte := list_byte_of_string s.

Definition byte_of_Z (z : Z) : byte :=
  match Byte.of_N (Z.to_N (z mod 256)) with
  | Some b => b
  | None => Byte.x00
  end.

Definition Z_of_byte (b : byte) : Z := Z.of_N (Byte.to_N b).

Definition code (c : ascii) : Z := Z.of_N (N_of_ascii c).

Fixpoint codes (s : string) : list Z :=
  match s with
  | EmptyString => []
  | String c s' => code c :: codes s'
  end.

(** [len(s)], a Go [int]. *)
Definition len (s : string) : Z := Z.of_nat (String.length s).

(** [uint64(n)] for an [int] n. *)
Definition uint64 (n : Z) : Z := n mod 2 ^ 64.

(** What [for _, c := range s] yields: the string decoded as UTF-8, one rune
    per well-formed sequence and U+FFFD (width 1) per byte that starts none
    (the Go language specification, "For statements with range clause"). *)
Definition RuneError : Z := 0xFFFD.

Definition between (lo b hi : Z) : bool := (lo <=? b) && (b <=? hi).

(** Width of the sequence a lead byte announces and the range its second
    byte must lie in. *)
Definition lead (b0 : Z) : option (nat * Z * Z) :=
  if between 0xC2 b0 0xDF then Some (2%nat, 0x80, 0xBF)
  else if b0 =? 0xE0 then Some (3%nat, 0xA0, 0xBF)
  else if b0 =? 0xED then Some (3%nat, 0x80, 0x9F)
  else if between 0xE1 b0 0xEF then Some (3%nat, 0x80, 0xBF)
  else if b0 =? 0xF0 then Some (4%nat, 0x90, 0xBF)
  else if between 0xF1 b0 0xF3 then Some (4%nat, 0x80, 0xBF)
  else if b0 =? 0xF4 then Some (4%nat, 0x80, 0x8F)
  else None.

Definition low6 (b : Z) : Z := Z.land b 0x3F.

Fixpoint decode (s : list Z) : list Z :=
  match s with
  | [] => []
  | b0 :: t =>
    if b0 <? 0x80 then b0 :: decode t
    else
      match lead b0 with
      | None => RuneError :: decode t
      | Some (width, lo, hi) =>
        match t with
        | [] => RuneError :: decode t
        | b1 :: t1 =>
          if negb (between lo b1 hi) then RuneError :: decode t
          else if (width =? 2)%nat then
            Z.lor (Z.shiftl (Z.land b0 0x1F) 6) (low6 b1) :: decode t1
          else
            match t1 with
            | [] => RuneError :: decode t
            | b2 :: t2 =>
              if negb (between 0x80 b2 0xBF) then RuneError :: decode t
              else if (width =? 3)%nat then
                Z.lor (Z.shiftl (Z.land b0 0x0F) 12)
                      (Z.lor (Z.shiftl (low6 b1) 6) (low6 b2)) :: decode t2
              else
                match t2 with
                | [] => RuneError :: decode t
                | b3 :: t3 =>
                  if negb (between 0x80 b3 0xBF) then RuneError :: decode t
                  else
                    Z.lor (Z.shiftl (Z.land b0 0x07) 18)
                          (Z.lor (Z.shiftl (low6 b1) 12)
                                 (Z.lor (Z.shiftl (low6 b2) 6) (low6 b3)))
                    :: decode t3
                end
            end
        end
      end
  end.

Definition runes (s : string) : list Z := decode (codes s).

(** [strings.ContainsRune(s, '\n')]: for a rune below 0x80 this is a search
    for the byte. *)
Fixpoint ContainsRune (s : string) (r : ascii) : bool :=
  match s with
  | EmptyString => false
  | String c s' => Ascii.eqb c r || ContainsRune s' r
  end.

(** [strconv.Itoa]: the decimal text of an integer, with a leading minus
    sign when negative. *)
Definition Itoa (n : Z) : string := NilZero.string_of_int (Z.to_int n).

(** ** Priorities *)

Definition Priority := Z.

Definition PriEmerg : Priority := 0.
Definition PriAlert : Priority := 1.
Definition PriCrit : Priority := 2.
Definition PriErr : Priority := 3.
Definition PriWarning : Priority := 4.
Definition PriNotice : Priority := 5.
Definition PriInfo : Priority := 6.
Definition PriDebug : Priority := 7.

(** ** Outcomes *)

Inductive outcome (A : Type) : Type :=
  | Done (a : A)
  | Panic (msg : string).
Arguments Done {A} a.
Arguments Panic {A} msg.

(** ** validVarName and toBytes *)

Definition isUpper (c : Z) : bool := (code "A" <=? c) && (c <=? code "Z").
Definition isDigit (c : Z) : bool := (code "0" <=? c) && (c <=? code "9").
Definition isUnderscore (c : Z) : bool := c =? code "_".

(** One turn of the loop body
    [valid = valid && ('A' <= c && c <= 'Z') || ('0' <= c && c <= '9') || c == '_'];
    in Go [&&] binds tighter than [||]. *)
Definition validStep (valid : bool) (c : Z) : bool :=
  (valid && isUpper c) || isDigit c || isUnderscore c.

Definition validVarName (name : string) : outcome bool :=
  match name with
  | EmptyString => Panic "runtime error: index out of range"
  | String c0 _ =>
    let valid := true in
    let valid := valid && negb (code c0 =? code "_") in
    Done (fold_left validStep (runes name) valid)
  end.

Definition toBytes (n : Z) : list byte :=
  map (fun i : nat => byte_of_Z (Z.shiftr n (Z.of_nat i * 8))) (seq 0 8).

(** ** Errors

    A Go [error] is an interface value.  The model keeps the dynamic types
    the code distinguishes by type assertion, each with the text its [Error]
    method returns. *)

Inductive error : Type :=
  | errorString (s : string)                  (* errors.New(s) *)
  | OpError (text : string) (Err : error)     (* *net.OpError with field Err *)
  | Errno (text : string) (e : Z)             (* syscall.Errno *)
  | otherError (text : string).               (* any other implementation *)

Definition Error (err : error) : string :=
  match err with
  | errorString s => s
  | OpError text _ => text
  | Errno text _ => text
  | otherError text => text
  end.

(** The two constants of package syscall (their Linux values). *)
Definition EMSGSIZE : Z := 0x5a.
Definition ENOBUFS : Z := 0x69.

(** [io.ErrShortWrite]. *)
Definition ErrShortWrite : error := errorString "short write".

Definition isSocketSpaceError (err : error) : bool :=
  match err with
  | OpError _ opErr_Err =>
    match opErr_Err with
    | Errno _ sysErr => (sysErr =? EMSGSIZE) || (sysErr =? ENOBUFS)
    | _ => false
    end
  | _ => false
  end.

(** ** The world

    [Conn] is the dynamic type of a non-nil [net.Conn]; [File] an open
    [*os.File].  [Env] holds what the operating system answers to each
    call; [World] is the state of the process: the package variable [conn],
    what was written to standard error (one entry per write), the system
    calls made so far, the seeds of the run-time's map iterations still to
    come, and the contents of the [bytes.Buffer] that [Send] allocates. *)

Inductive Conn : Type := UnixConn | OtherConn.

Record File : Type := { Name : string; Fd : Z }.

Inductive event : Type :=
  | EvDial (network address : string) (r : Conn + error)
  | EvConnWrite (p : list byte) (n : nat) (err : option error)
  | EvTempFile (dir prefix : string) (r : File + error)
  | EvUnlink (name : string) (err : option error)
  | EvFileWrite (f : File) (p : list byte) (n : nat) (err : option error)
  | EvWriteMsgUnix (b : list byte) (rights : list Z) (err : option error).

Record Env : Type := {
  dial : Conn + error;
  connWrite : list byte -> nat * option error;
  tempFile : File + error;
  unlink : string -> option error;
  fileWrite : list byte -> nat * option error;
  writeMsgUnix : list byte -> list Z -> option error
}.

Record World : Type := {
  env : Env;
  conn : option Conn;
  stderr : list string;
  trace : list event;
  seeds : list nat;
  data : list byte
}.

Definition set_conn (c : option Conn) (st : World) : World :=
  {| env := env st; conn := c; stderr := stderr st; trace := trace st;
     seeds := seeds st; data := data st |}.

Definition set_stderr (l : list string) (st : World) : World :=
  {| env := env st; conn := conn st; stderr := l; trace := trace st;
     seeds := seeds st; data := data st |}.

Definition set_trace (t : list event) (st : World) : World :=
  {| env := env st; conn := conn st; stderr := stderr st; trace := t;
     seeds := seeds st; data := data st |}.

Definition set_seeds (l : list nat) (st : World) : World :=
  {| env := env st; conn := conn st; stderr := stderr st; trace := trace st;
     seeds := l; data := data st |}.

Definition set_data (d : list byte) (st : World) : World :=
  {| env := env st; conn := conn st; stderr := stderr st; trace := trace st;
     seeds := seeds st; data := d |}.

(** ** The monad: state passing, with panics *)

Definition M (A : Type) : Type := World -> outcome A * World.

Definition ret {A} (a : A) : M A := fun st => (Done a, st).

Definition bind {A B} (m : M A) (k : A -> M B) : M B :=
  fun st =>
    match m st with
    | (Done a, st') => k a st'
    | (Panic msg, st') => (Panic msg, st')
    end.

Definition lift {A} (o : outcome A) : M A := fun st => (o, st).

Declare Scope go_scope.
Delimit Scope go_scope with go.
Notation "x <- m ;; k" := (bind m (fun x => k))
  (at level 100, m at next level, right associativity) : go_scope.
Notation "m ;; k" := (bind m (fun _ => k))
  (at level 100, right associativity) : go_scope.
Local Open Scope go_scope.

(** An [io.Writer]: its [Write] method, returning [(n, err)]. *)
Definition Writer : Type := list byte -> M (nat * option error).

(** The [Write] method of [*bytes.Buffer]: appends, never fails. *)
Definition bufferWriter : Writer :=
  fun p st => (Done (length p, None), set_data (data st ++ p) st).

(** [conn.Write] and [file.Write]: one system call each, which reports
    0 <= n <= len(p) bytes written. *)
Definition sysWriter (answer : Env -> list byte -> nat * option error)
    (ev : list byte -> nat -> option error -> event) : Writer :=
  fun p st =>
    let '(n, err) := answer (env st) p in
    let n := Nat.min n (length p) in
    (Done (n, err), set_trace (trace st ++ [ev p n err]) st).

Definition connWriter : Writer := sysWriter connWrite EvConnWrite.

Definition fileWriter (file : File) : Writer :=
  sysWriter fileWrite (EvFileWrite file).

(** [fmt.Fprintln(w, s)]: one write of [s] and a newline. *)
Definition Fprintln (w : Writer) (s : string) : M (nat * option error) :=
  w (bytes (s +:+ newline)).

(** [fmt.Fprintln(os.Stderr, s)]. *)
Definition Fprintln_Stderr (s : string) : M unit :=
  fun st => (Done tt, set_stderr (stderr st ++ [s +:+ newline]) st).

(** [new(bytes.Buffer)]. *)
Definition new_Buffer : M unit := fun st => (Done tt, set_data [] st).

(** [io.Copy(dst, data)] for the buffer [data]: [*bytes.Buffer] implements
    [io.WriterTo], so this is [data.WriteTo(dst)]: one [Write] of the
    unread bytes; the bytes the writer took are consumed. *)
Definition io_Copy (dst : Writer) : M (nat * option error) :=
  fun st =>
    let nBytes := length (data st) in
    if (0 <? nBytes)%nat then
      (r <- dst (data st) ;;
       let '(m, e) := r in
       if (nBytes <? m)%nat then
         lift (Panic "bytes.Buffer.WriteTo: invalid Write count")
       else
         (fun st' => (Done tt, set_data (drop m (data st')) st')) ;;
         match e with
         | Some e => ret (m, Some e)
         | None =>
           if (m =? nBytes)%nat then
             (fun st' => (Done (m, None), set_data [] st'))
           else ret (m, Some ErrShortWrite)
         end) st
    else (Done (0%nat, None), set_data [] st).

(** [for k, v := range vars]: every entry once, in an order the run-time
    picks anew for each iteration. *)
Definition iteration (seed : nat) (vars : gmap string string)
    : list (string * string) :=
  let entries := map_to_list vars in
  default entries (permutations entries !! seed).

Definition rangeMap (vars : gmap string string) : M (list (string * string)) :=
  fun st =>
    (Done (iteration (hd 0%nat (seeds st)) vars), set_seeds (tl (seeds st)) st).

Fixpoint forEach {A} (l : list A) (body : A -> M unit) : M unit :=
  match l with
  | [] => ret tt
  | x :: l' => body x ;; forEach l' body
  end.

(** ** The functions of send.go *)

Definition journalError (s : string) : M error :=
  let s := "journal error: " +:+ s in
  Fprintln_Stderr s ;;
  ret (errorString s).

Definition init : M unit :=
  r <- (fun st =>
          let r := dial (env st) in
          (Done r, set_trace
             (trace st ++ [EvDial "unixgram" "/run/systemd/journal/socket" r]) st)) ;;
  match r with
  | inl c => fun st => (Done tt, set_conn (Some c) st)
  | inr err =>
    (fun st => (Done tt, set_conn None st)) ;;
    journalError (Error err) ;;
    ret tt
  end.

Definition Enabled (st : World) : bool :=
  match conn st with
  | Some _ => true
  | None => false
  end.

Definition appendVariable (w : Writer) (name value : string) : M unit :=
  valid <- lift (validVarName name) ;;
  (if negb valid then
     journalError "variable name contains invalid character, ignoring" ;; ret tt
   else ret tt) ;;
  if ContainsRune value nl then
    Fprintln w name ;;
    w (toBytes (uint64 (len value))) ;;
    Fprintln w value ;;
    ret tt
  else
    w (bytes (name +:+ "=" +:+ value +:+ newline)) ;;
    ret tt.

(** [tempFd] returns [(file, nil)] or [(nil, err)].  The result of
    [syscall.Unlink] is dropped: the second test of [err] still reads the
    error of [ioutil.TempFile], which is nil there. *)
Definition tempFd : M (File + error) :=
  r <- (fun st =>
          let r := tempFile (env st) in
          (Done r, set_trace (trace st ++ [EvTempFile "/dev/shm/" "journal.XXXXX" r]) st)) ;;
  match r with
  | inr err => ret (inr err)
  | inl file =>
    (fun st => (Done tt, set_trace
       (trace st ++ [EvUnlink (Name file) (unlink (env st) (Name file))]) st)) ;;
    ret (inl file)
  end.

(** [syscall.UnixRights(fd)] is the control message that carries [fd];
    it is represented by the descriptors it carries. *)
Definition UnixRights (fd : Z) : list Z := [fd].

Definition WriteMsgUnix (b : list byte) (oob : list Z) : M (option error) :=
  fun st =>
    let err := writeMsgUnix (env st) b oob in
    (Done err, set_trace (trace st ++ [EvWriteMsgUnix b oob err]) st).

(** Lines 48-53 of [Send]: the entry is encoded into the fresh buffer. *)
Definition encodeEntry (message : string) (priority : Priority)
    (vars : gmap string string) : M unit :=
  new_Buffer ;;
  appendVariable bufferWriter "PRIORITY" (Itoa priority) ;;
  appendVariable bufferWriter "MESSAGE" message ;;
  kvs <- rangeMap vars ;;
  forEach kvs (fun kv => appendVariable bufferWriter (fst kv) (snd kv)).

(** Lines 55-77 of [Send]: the buffer is written to the socket and, when
    the socket has no room for it, staged in a file whose descriptor is
    sent instead. *)
Definition deliver (c : Conn) : M (option error) :=
  r <- io_Copy connWriter ;;
  match snd r with
  | Some err =>
    if isSocketSpaceError err then
      r <- tempFd ;;
      match r with
      | inr err => e <- journalError (Error err) ;; ret (Some e)
      | inl file =>
        r <- io_Copy (fileWriter file) ;;
        match snd r with
        | Some err => e <- journalError (Error err) ;; ret (Some e)
        | None =>
          let rights := UnixRights (Fd file) in
          match c with
          | UnixConn => WriteMsgUnix [] rights ;; ret None
          | OtherConn =>
            e <- journalError "can't send file through non-Unix connection" ;;
            ret (Some e)
          end
        end
      end
    else e <- journalError (Error err) ;; ret (Some e)
  | None => ret None
  end.

Definition Send (message : string) (priority : Priority)
    (vars : gmap string string) : M (option error) :=
  c <- (fun st => (Done (conn st), st)) ;;
  match c with
  | None =>
    e <- journalError "could not connect to journald socket" ;; ret (Some e)
  | Some c =>
    encodeEntry message priority vars ;;
    deliver c
  end.

(** ** What the code writes, as pure functions

    These summarise the runs of the functions above; the lemmas of the next
    section prove that they do. *)

(** The bytes [appendVariable] writes for one name/value pair. *)
Definition framing (name value : string) : list byte :=
  if ContainsRune value nl then
    bytes (name +:+ newline) ++ toBytes (uint64 (len value)) ++ bytes (value +:+ newline)
  else bytes (name +:+ "=" +:+ value +:+ newline).

(** The line [appendVariable] writes to standard error for a name that
    [validVarName] rejects. *)
Definition diagnostic : string :=
  "journal error: variable name contains invalid character, ignoring" +:+ newline.

Definition warnings (name : string) : list string :=
  match validVarName name with
  | Done false => [diagnostic]
  | _ => []
  end.

Definition isEmpty (s : string) : bool :=
  match s with
  | EmptyString => true
  | String _ _ => false
  end.

(** The entries the loop of [Send] gets through: all of them, or those
    before the first empty name. *)
Fixpoint reached (kvs : list (string * string)) : list (string * string) :=
  match kvs with
  | [] => []
  | kv :: kvs' => if isEmpty (fst kv) then [] else kv :: reached kvs'
  end.

Definition encodedFields (kvs : list (string * string)) : list byte :=
  concat (map (fun kv => framing (fst kv) (snd kv)) kvs).

Definition fieldWarnings (kvs : list (string * string)) : list string :=
  concat (map (fun kv => warnings (fst kv)) kvs).

Definition header (message : string) (priority : Priority) : list byte :=
  framing "PRIORITY" (Itoa priority) ++ framing "MESSAGE" message.

(** A world after some bytes were appended to the buffer and some lines to
    standard error. *)
Definition appended (bs : list byte) (errs : list string) (st : World) : World :=
  set_data (data st ++ bs) (set_stderr (stderr st ++ errs) st).

(** The events of a run from [st] to [st']. *)
Definition emitted (st st' : World) : list event :=
  drop (length (trace st)) (trace st').

(** The contents of the file [f] after the writes among [evs]. *)
Fixpoint staged (f : File) (evs : list event) : list byte :=
  match evs with
  | [] => []
  | EvFileWrite f' p n _ :: evs' =>
    if decide (Fd f' = Fd f) then take n p ++ staged f evs' else staged f evs'
  | _ :: evs' => staged f evs'
  end.

Definition encoded (message : string) (priority : Priority)
    (kvs : list (string * string)) : list byte :=
  header message priority ++ encodedFields (reached kvs).

Definition nonEmptyKeys (kvs : list (string * string)) : bool :=
  forallb (fun kv => negb (isEmpty (fst kv))) kvs.

(** The error [io.Copy] returns after a write that took [n] of [k] bytes. *)
Definition copyError (n k : nat) (err : option error) : option error :=
  match err with
  | Some e => Some e
  | None => if (n =? k)%nat then None else Some ErrShortWrite
  end.

(** ** Runs of the delivery

    [delivery en c buf] is what [deliver c] returns, the system calls it
    makes and the lines it writes to standard error when the buffer holds
    [buf] and the operating system answers as [en] says. *)

Definition failure (s : string) : option error :=
  Some (errorString ("journal error: " +:+ s)).

Definition line (s : string) : string := ("journal error: " +:+ s) +:+ newline.

Definition taken (answer : nat * option error) (p : list byte) : nat :=
  Nat.min (fst answer) (length p).

Definition delivery (en : Env) (c : Conn) (buf : list byte)
    : option error * list event * list string :=
  let n := taken (connWrite en buf) buf in
  let w := EvConnWrite buf n (snd (connWrite en buf)) in
  match copyError n (length buf) (snd (connWrite en buf)) with
  | None => (None, [w], [])
  | Some err =>
    if isSocketSpaceError err then
      let t := EvTempFile "/dev/shm/" "journal.XXXXX" (tempFile en) in
      match tempFile en with
      | inr err' => (failure (Error err'), [w; t], [line (Error err')])
      | inl f =>
        let u := EvUnlink (Name f) (unlink en (Name f)) in
        let rest := drop n buf in
        let m := taken (fileWrite en rest) rest in
        let fw :=
          match rest with
          | [] => []
          | _ :: _ => [EvFileWrite f rest m (snd (fileWrite en rest))]
          end in
        match
          match rest with
          | [] => None
          | _ :: _ => copyError m (length rest) (snd (fileWrite en rest))
          end
        with
        | Some err' => (failure (Error err'), [w; t; u] ++ fw, [line (Error err')])
        | None =>
          match c with
          | UnixConn =>
            (None,
             [w; t; u] ++ fw ++
             [EvWriteMsgUnix [] [Fd f] (writeMsgUnix en [] [Fd f])], [])
          | OtherConn =>
            (failure "can't send file through non-Unix connection",
             [w; t; u] ++ fw,
             [line "can't send file through non-Unix connection"])
          end
        end
      end
    else (failure (Error err), [w], [line (Error err)])
  end.

Definition isConnWrite (x : event) : bool :=
  match x with EvConnWrite _ _ _ => true | _ => false end.
Definition isTempFile (x : event) : bool :=
  match x with EvTempFile _ _ _ => true | _ => false end.

(** ** Notions of the specification *)

(** Little-endian reading of a byte sequence as an unsigned integer. *)
Fixpoint littleEndian (bs : list byte) : Z :=
  match bs with
  | [] => 0
  | b :: bs' => Z_of_byte b + 256 * littleEndian bs'
  end.

Definition allowed (c : ascii) : bool :=
  let n := code c in isUpper n || isDigit n || isUnderscore n.

Fixpoint allAllowed (s : string) : bool :=
  match s with
  | EmptyString => true
  | String c s' => allowed c && allAllowed s'
  end.

(** Non-empty, first character not an underscore, every character in
    A-Z, 0-9 or underscore. *)
Definition wellFormed (name : string) : bool :=
  match name with
  | EmptyString => false
  | String c0 _ => negb (Ascii.eqb c0 "_") && allAllowed name
  end.

(** The two error conditions the specification recognises: EMSGSIZE or
    ENOBUFS, wrapped in a [*net.OpError]. *)
Definition overflowClass (err : error) : Prop :=
  exists text text' e,
    err = OpError text (Errno text' e) /\ (e = EMSGSIZE \/ e = ENOBUFS).

(** ** Some worlds to run the code in *)

Definition journalFile : File := {| Name := "/dev/shm/journal.00001"; Fd := 7 |}.

Definition messageTooLong : error :=
  OpError "write unixgram /run/systemd/journal/socket: message too long"
          (Errno "message too long" EMSGSIZE).

Definition connectionRefused : error :=
  OpError "sendmsg unixgram /run/systemd/journal/socket: connection refused"
          (Errno "connection refused" 0x6f).

(** Every call succeeds. *)
Definition healthy : Env :=
  {| dial := inl UnixConn;
     connWrite := fun p => (length p, None);
     tempFile := inl journalFile;
     unlink := fun _ => None;
     fileWrite := fun p => (length p, None);
     writeMsgUnix := fun _ _ => None |}.

(** The socket has no room for a datagram of this size. *)
Definition fullSocket : Env :=
  {| dial := inl UnixConn;
     connWrite := fun p => (0%nat, Some messageTooLong);
     tempFile := inl journalFile;
     unlink := fun _ => None;
     fileWrite := fun p => (length p, None);
     writeMsgUnix := fun _ _ => None |}.

(** As [fullSocket], and sending the descriptor fails too. *)
Definition deafSocket : Env :=
  {| dial := inl UnixConn;
     connWrite := fun p => (0%nat, Some messageTooLong);
     tempFile := inl journalFile;
     unlink := fun _ => None;
     fileWrite := fun p => (length p, None);
     writeMsgUnix := fun _ _ => Some connectionRefused |}.

(** The daemon is gone. *)
Definition refusing : Env :=
  {| dial := inr connectionRefused;
     connWrite := fun p => (0%nat, Some connectionRefused);
     tempFile := inl journalFile;
     unlink := fun _ => None;
     fileWrite := fun p => (length p, None);
     writeMsgUnix := fun _ _ => Some connectionRefused |}.

Definition start (en : Env) (c : option Conn) (sds : list nat) : World :=
  {| env := en; conn := c; stderr := []; trace := []; seeds := sds; data := [] |}.

Definition twoLines : string := "line1" +:+ newline +:+ "line2".

Definition unitField : gmap string string := {["UNIT" := "backup.service"]}.

Definition twoFields : gmap string string := {["A" := "1"; "B" := "2"]}.

(** ** Reading the format back

    A reader of one field from the front of a byte sequence, as the comment
    in [appendVariable] describes the two forms.  It serves to show that
    what the code writes can be told apart again. *)

Definition isNewline (b : byte) : bool := Ascii.eqb (ascii_of_byte b) nl.

Definition isDelimiter (b : byte) : bool :=
  Ascii.eqb (ascii_of_byte b) "=" || isNewline b.

Fixpoint scan (stop : byte -> bool) (bs : list byte)
    : option (list byte * byte * list byte) :=
  match bs with
  | [] => None
  | b :: bs' =>
    if stop b then Some ([], b, bs')
    else
      match scan stop bs' with
      | Some (before, d, after) => Some (b :: before, d, after)
      | None => None
      end
  end.

Definition readField (bs : list byte) : option (string * string * list byte) :=
  match scan isDelimiter bs with
  | None => None
  | Some (name, d, rest) =>
    if isNewline d then
      let n := Z.to_nat (littleEndian (take 8 rest)) in
      let body := drop 8 rest in
      match drop n body with
      | b :: rest' =>
        if isNewline b then
          Some (string_of_list_byte name, string_of_list_byte (take n body), rest')
        else None
      | [] => None
      end
    else
      match scan isNewline rest with
      | Some (value, _, rest') =>
        Some (string_of_list_byte name, string_of_list_byte value, rest')
      | None => None
      end
  end.

Definition plainName (name : string) : bool :=
  negb (ContainsRune name "=") && negb (ContainsRune name nl).

Definition encodable (kv : string * string) : Prop :=
  plainName (fst kv) = true /\ len (snd kv) < 2 ^ 64.

(** The datagram of a call: the entry as the loop of [Send] encodes it in
    the iteration order of the state. *)
Definition entry (message : string) (priority : Priority)
    (vars : gmap string string) (st : World) : list byte :=
  header message priority ++ encodedFields (iteration (hd 0%nat (seeds st)) vars).

(** An environment that answers [syscall.Unlink] differently. *)
Definition with_unlink (answer : string -> option error) (en : Env) : Env :=
  {| dial := dial en; connWrite := connWrite en; tempFile := tempFile en;
     unlink := answer; fileWrite := fileWrite en; writeMsgUnix := writeMsgUnix en |}.

Definition set_env (en : Env) (st : World) : World :=
  {| env := en; conn := conn st; stderr := stderr st; trace := trace st;
     seeds := seeds st; data := data st |}.

Definition isDial (x : event) : bool :=
  match x with EvDial _ _ _ => true | _ => false end.

(** An entry whose parts the format can carry: names without the separator
    and without a newline, none of them empty, and lengths that fit the
    eight-byte prefix (as the length of every Go string does). *)
Definition plainEntry (message : string) (vars : gmap string string) : Prop :=
  len message < 2 ^ 64 /\
  vars !! EmptyString = None /\
  map_Forall (fun k v => plainName k = true /\ len v < 2 ^ 64) vars.

(** More worlds: no shared memory to stage in, and a socket that reports
    three bytes taken before it fails. *)
Definition noSharedMemory : Env :=
  {| dial := inl UnixConn;
     connWrite := fun p => (0%nat, Some messageTooLong);
     tempFile := inr (otherError "open /dev/shm/journal.XXXXX: no such file or directory");
     unlink := fun _ => None;
     fileWrite := fun p => (length p, None);
     writeMsgUnix := fun _ _ => None |}.

Definition halfSent : Env :=
  {| dial := inl UnixConn;
     connWrite := fun p => (3%nat, Some messageTooLong);
     tempFile := inl journalFile;
     unlink := fun _ => None;
     fileWrite := fun p => (length p, None);
     writeMsgUnix := fun _ _ => None |}.

(** * Lemmas *)

(** ** Strings and bytes *)

Lemma bytes_app (s t : string) : bytes (s +:+ t) = bytes s ++ bytes t.
Proof.
  unfold bytes, list_byte_of_string.
  induction s as [|c s IH]; simpl; [reflexivity | now rewrite IH].
Qed.

Lemma bytes_length (s : string) : length (bytes s) = String.length s.
Proof.
  unfold bytes, list_byte_of_string.
  induction s as [|c s IH]; simpl; [reflexivity | now rewrite IH].
Qed.

Lemma ContainsRune_app (s t : string) (r : ascii) :
  ContainsRune (s +:+ t) r = ContainsRune s r || ContainsRune t r.
Proof.
  induction s as [|c s IH]; simpl; [reflexivity |].
  rewrite IH. now rewrite orb_assoc.
Qed.

Lemma ContainsRune_digits (d : Decimal.uint) :
  ContainsRune (NilEmpty.string_of_uint d) nl = false.
Proof. induction d; simpl; auto. Qed.

Lemma ContainsRune_Itoa (n : Z) : ContainsRune (Itoa n) nl = false.
Proof.
  unfold Itoa, NilZero.string_of_int, NilZero.string_of_uint.
  destruct (Z.to_int n) as [d|d]; destruct d; simpl;
    auto using ContainsRune_digits.
Qed.

(** ** toBytes *)

Lemma Z_of_byte_of_Z (z : Z) : Z_of_byte (byte_of_Z z) = z mod 256.
Proof.
  unfold Z_of_byte, byte_of_Z.
  assert (Hlt : (Z.to_N (z mod 256) < 256)%N).
  { pose proof (Z.mod_pos_bound z 256). lia. }
  destruct (Byte.of_N (Z.to_N (z mod 256))) as [b|] eqn:E.
  - apply Byte.to_of_N in E. rewrite E.
    pose proof (Z.mod_pos_bound z 256). lia.
  - apply Byte.of_N_None_iff in E. lia.
Qed.

Lemma littleEndian_shifts (n : Z) (k j : nat) :
  0 <= n ->
  littleEndian
    (map (fun i : nat => byte_of_Z (Z.shiftr n (Z.of_nat i * 8))) (seq j k))
  = Z.shiftr n (Z.of_nat j * 8) mod 2 ^ (Z.of_nat k * 8).
Proof.
  intros Hn. revert j. induction k as [|k IH]; intros j.
  - simpl. now rewrite Z.mod_1_r.
  - cbn [seq map littleEndian]. rewrite IH, Z_of_byte_of_Z.
    replace (Z.of_nat (S j) * 8) with (Z.of_nat j * 8 + 8) by lia.
    rewrite <- Z.shiftr_shiftr by lia.
    set (m := Z.shiftr n (Z.of_nat j * 8)).
    rewrite (Z.shiftr_div_pow2 m 8) by lia.
    replace (Z.of_nat (S k) * 8) with (8 + Z.of_nat k * 8) by lia.
    rewrite Z.pow_add_r by lia.
    change (2 ^ 8) with 256.
    rewrite (Z.rem_mul_r m 256 (2 ^ (Z.of_nat k * 8))) by lia.
    reflexivity.
Qed.

Lemma toBytes_length (n : Z) : length (toBytes n) = 8%nat.
Proof. reflexivity. Qed.

Lemma littleEndian_toBytes (n : Z) :
  0 <= n < 2 ^ 64 -> littleEndian (toBytes n) = n.
Proof.
  intros Hn. unfold toBytes. rewrite littleEndian_shifts by lia.
  change (Z.of_nat 0 * 8) with 0. rewrite Z.shiftr_0_r.
  change (Z.of_nat 8 * 8) with 64. apply Z.mod_small; lia.
Qed.

(** ** validVarName *)

Lemma validVarName_nonempty (c : ascii) (s : string) :
  exists b, validVarName (String c s) = Done b.
Proof. unfold validVarName. eauto. Qed.

Lemma isEmpty_false_valid (name : string) :
  isEmpty name = false -> exists b, validVarName name = Done b.
Proof. destruct name; [discriminate | intros _; apply validVarName_nonempty]. Qed.

(** On a name made of allowed characters only, every byte is below 0x80 and
    the range loop sees the bytes themselves. *)
Lemma allowed_ascii (c : ascii) : allowed c = true -> (code c <? 0x80) = true.
Proof.
  unfold allowed, isUpper, isDigit, isUnderscore.
  change (code "A") with 65. change (code "Z") with 90.
  change (code "0") with 48. change (code "9") with 57.
  change (code "_") with 95.
  intros H. apply Z.ltb_lt.
  repeat (apply orb_prop in H; destruct H as [H|H]);
    try (apply andb_prop in H; destruct H as [H1 H2]); lia.
Qed.

Lemma decode_allAllowed (s : string) :
  allAllowed s = true -> decode (codes s) = codes s.
Proof.
  induction s as [|c s IH]; [reflexivity |].
  cbn [allAllowed codes]. intros H. apply andb_prop in H as [Hc Hs].
  cbn [decode]. rewrite (allowed_ascii c Hc). now rewrite IH.
Qed.

Lemma validStep_allowed (s : string) :
  allAllowed s = true -> fold_left validStep (codes s) true = true.
Proof.
  induction s as [|c s IH]; [reflexivity |].
  cbn [allAllowed codes fold_left]. intros H. apply andb_prop in H as [Hc Hs].
  unfold allowed in Hc. unfold validStep at 2. cbn [andb]. rewrite Hc. auto.
Qed.

(** X6: the check accepts every well-formed name (not empty, not starting
    with an underscore, made of A-Z, 0-9 and underscore only). *)
Lemma validVarName_complete (name : string) :
  wellFormed name = true -> validVarName name = Done true.
Proof.
  destruct name as [|c0 s]; [discriminate |].
  unfold wellFormed, validVarName. intros H. apply andb_prop in H as [H0 Hall].
  unfold runes. rewrite (decode_allAllowed _ Hall).
  assert (Hne : (code c0 =? code "_") = false).
  { apply Z.eqb_neq. intros E. unfold code in E.
    apply N2Z.inj, (f_equal ascii_of_N) in E. rewrite !ascii_N_embedding in E.
    subst c0. discriminate. }
  rewrite Hne. cbn [negb andb]. now rewrite validStep_allowed.
Qed.

(** ** Runs of the field encoder *)

Lemma appended_appended (a b : list byte) (e f : list string) (st : World) :
  appended b f (appended a e st) = appended (a ++ b) (e ++ f) st.
Proof.
  unfold appended, set_data, set_stderr. simpl.
  now rewrite <- !app_assoc.
Qed.

Lemma appended_nil (st : World) : appended [] [] st = st.
Proof.
  destruct st. unfold appended, set_data, set_stderr. simpl.
  now rewrite !app_nil_r.
Qed.

Lemma appendVariable_panics (w : Writer) (name value msg : string) (st : World) :
  validVarName name = Panic msg ->
  appendVariable w name value st = (Panic msg, st).
Proof. intros H. unfold appendVariable, bind, lift. now rewrite H. Qed.

Lemma appendVariable_run (name value : string) (b : bool) (st : World) :
  validVarName name = Done b ->
  appendVariable bufferWriter name value st
  = (Done tt, appended (framing name value) (warnings name) st).
Proof.
  intros H. unfold appendVariable, warnings, framing, bind, lift. rewrite H.
  destruct st as [en c err tr sd d].
  destruct b; destruct (ContainsRune value nl);
    cbn; unfold appended, set_data, set_stderr; cbn;
    rewrite ?app_nil_r, <- ?app_assoc; reflexivity.
Qed.

Lemma forEach_run (kvs : list (string * string)) (st : World) :
  snd (forEach kvs (fun kv => appendVariable bufferWriter (fst kv) (snd kv)) st)
  = appended (encodedFields (reached kvs)) (fieldWarnings (reached kvs)) st.
Proof.
  revert st. induction kvs as [|[k v] kvs IH]; intros st.
  - cbn. now rewrite appended_nil.
  - cbn [forEach reached fst snd]. unfold bind at 1.
    destruct k as [|c k]; cbn [isEmpty].
    + rewrite (appendVariable_panics _ _ _ "runtime error: index out of range")
        by reflexivity.
      cbn. now rewrite appended_nil.
    + destruct (validVarName_nonempty c k) as [b Hb].
      rewrite (appendVariable_run _ _ b) by exact Hb.
      rewrite IH, appended_appended. reflexivity.
Qed.

Lemma forEach_outcome (kvs : list (string * string)) (st : World) :
  fst (forEach kvs (fun kv => appendVariable bufferWriter (fst kv) (snd kv)) st)
  = if forallb (fun kv => negb (isEmpty (fst kv))) kvs then Done tt
    else Panic "runtime error: index out of range".
Proof.
  revert st. induction kvs as [|[k v] kvs IH]; intros st; [reflexivity |].
  cbn [forEach forallb fst snd]. unfold bind at 1.
  destruct k as [|c k]; cbn [isEmpty negb andb].
  - now rewrite (appendVariable_panics _ _ _ "runtime error: index out of range").
  - destruct (validVarName_nonempty c k) as [b Hb].
    rewrite (appendVariable_run _ _ b) by exact Hb. apply IH.
Qed.

Lemma reached_all (kvs : list (string * string)) :
  forallb (fun kv => negb (isEmpty (fst kv))) kvs = true -> reached kvs = kvs.
Proof.
  induction kvs as [|kv kvs IH]; [reflexivity |].
  cbn [forallb reached]. intros H. apply andb_prop in H as [H1 H2].
  destruct (isEmpty (fst kv)); [discriminate |]. now rewrite IH.
Qed.

Lemma reached_prefix (kvs : list (string * string)) :
  exists n, reached kvs = take n kvs.
Proof.
  induction kvs as [|kv kvs [n IH]]; [now exists 0%nat |].
  cbn [reached]. destruct (isEmpty (fst kv)).
  - now exists 0%nat.
  - exists (S n). cbn. now rewrite IH.
Qed.

(** ** Runs of the entry encoder *)

Lemma iteration_Permutation (seed : nat) (vars : gmap string string) :
  iteration seed vars ≡ₚ map_to_list vars.
Proof.
  unfold iteration. cbv zeta.
  destruct (permutations (map_to_list vars) !! seed) as [l|] eqn:E; cbn.
  - symmetry. apply permutations_Permutation.
    apply list_elem_of_lookup. eauto.
  - reflexivity.
Qed.

Lemma iteration_nonempty_keys (seed : nat) (vars : gmap string string) :
  vars !! EmptyString = None ->
  forallb (fun kv => negb (isEmpty (fst kv))) (iteration seed vars) = true.
Proof.
  intros Hnone. apply forallb_forall. intros [k v] Hin.
  apply list_elem_of_In in Hin. rewrite iteration_Permutation in Hin.
  apply elem_of_map_to_list in Hin.
  destruct k; [congruence | reflexivity].
Qed.

Lemma iteration_singleton (seed : nat) (k v : string) :
  iteration seed {[k := v]} = [(k, v)].
Proof.
  unfold iteration. rewrite map_to_list_singleton. cbn.
  destruct seed as [|[|seed]]; reflexivity.
Qed.

Section EntryEncoder.

Variables (message : string) (priority : Priority).
Variables (vars : gmap string string) (st : World).

Lemma encodeEntry_run :
  snd (encodeEntry message priority vars st)
  = appended (encoded message priority (iteration (hd 0%nat (seeds st)) vars))
             (fieldWarnings (reached (iteration (hd 0%nat (seeds st)) vars)))
             (set_seeds (tl (seeds st)) (set_data [] st)).
Proof.
  unfold encodeEntry, encoded, header, new_Buffer, rangeMap.
  unfold bind at 1. unfold bind at 1.
  rewrite (appendVariable_run "PRIORITY" _ true) by reflexivity.
  unfold bind at 1.
  rewrite (appendVariable_run "MESSAGE" _ true) by reflexivity.
  unfold bind at 1. cbv beta iota.
  rewrite forEach_run, !appended_appended.
  destruct st as [en c err tr sd d]. unfold appended, set_seeds, set_data, set_stderr.
  cbn [env conn stderr trace seeds data].
  change (warnings "PRIORITY") with (@nil string).
  change (warnings "MESSAGE") with (@nil string).
  rewrite <- !app_assoc. reflexivity.
Qed.

Lemma encodeEntry_outcome :
  fst (encodeEntry message priority vars st)
  = if forallb (fun kv => negb (isEmpty (fst kv)))
         (iteration (hd 0%nat (seeds st)) vars)
    then Done tt else Panic "runtime error: index out of range".
Proof.
  unfold encodeEntry, new_Buffer, rangeMap.
  unfold bind at 1. unfold bind at 1.
  rewrite (appendVariable_run "PRIORITY" _ true) by reflexivity.
  unfold bind at 1.
  rewrite (appendVariable_run "MESSAGE" _ true) by reflexivity.
  unfold bind at 1. cbv beta iota.
  apply forEach_outcome.
Qed.

Lemma framing_length (name value : string) : (0 < length (framing name value))%nat.
Proof.
  unfold framing. destruct (ContainsRune value nl).
  - rewrite !length_app, toBytes_length. lia.
  - rewrite !bytes_app, !length_app. cbn. lia.
Qed.

Lemma encoded_length (kvs : list (string * string)) :
  (0 < length (encoded message priority kvs))%nat.
Proof.
  unfold encoded, header. rewrite !length_app.
  pose proof (framing_length "PRIORITY" (Itoa priority)). lia.
Qed.

(** What stays as it was while the entry is encoded. *)
Lemma encodeEntry_frame :
  let st1 := snd (encodeEntry message priority vars st) in
  env st1 = env st /\ conn st1 = conn st /\ trace st1 = trace st /\
  data st1 = encoded message priority (iteration (hd 0%nat (seeds st)) vars) /\
  stderr st1 = stderr st ++
    fieldWarnings (reached (iteration (hd 0%nat (seeds st)) vars)).
Proof.
  cbv zeta. rewrite encodeEntry_run. unfold appended. cbn. auto 6.
Qed.

End EntryEncoder.

(** ** Runs of io.Copy *)

Lemma io_Copy_run (answer : Env -> list byte -> nat * option error)
    (ev : list byte -> nat -> option error -> event) (st : World) :
  io_Copy (sysWriter answer ev) st =
  match data st with
  | [] => (Done (0%nat, None), set_data [] st)
  | _ :: _ =>
    let n := Nat.min (fst (answer (env st) (data st))) (length (data st)) in
    let err := snd (answer (env st) (data st)) in
    (Done (n, copyError n (length (data st)) err),
     set_data (match copyError n (length (data st)) err with
               | None => []
               | Some _ => drop n (data st)
               end)
              (set_trace (trace st ++ [ev (data st) n err]) st))
  end.
Proof.
  unfold io_Copy. destruct (data st) as [|b d] eqn:Ed; [reflexivity |].
  change (0 <? length (b :: d))%nat with true. cbv iota.
  unfold bind at 1, sysWriter at 1.
  destruct (answer (env st) (b :: d)) as [n0 err] eqn:Ea.
  cbn [fst snd]. cbv zeta.
  set (n := Nat.min n0 (length (b :: d))).
  assert (Hn : (length (b :: d) <? n)%nat = false).
  { apply Nat.ltb_ge. subst n. lia. }
  rewrite Hn. unfold bind, ret, set_data, set_trace, copyError. cbn.
  rewrite Ed.
  destruct err as [e|]; [reflexivity |].
  fold n. change (S (length d)) with (length (b :: d)).
  destruct (n =? length (b :: d))%nat eqn:En; reflexivity.
Qed.

(** ** Runs of deliver *)

(** Every path through [delivery]: one goal for each answer of the
    operating system that the code tells apart. *)
Ltac delivery_cases :=
  unfold delivery; cbv zeta;
  repeat match goal with
         | |- context [match ?x with _ => _ end] => destruct x
         end.

Lemma deliver_run (c : Conn) (st : World) :
  data st <> [] ->
  let r := deliver c st in
  let s := delivery (env st) c (data st) in
  fst r = Done (fst (fst s)) /\
  trace (snd r) = trace st ++ snd (fst s) /\
  stderr (snd r) = stderr st ++ snd s /\
  env (snd r) = env st /\ conn (snd r) = conn st /\ seeds (snd r) = seeds st.
Proof.
  intros Hd. cbv zeta. remember (deliver c st) as r eqn:E.
  unfold deliver, connWriter, fileWriter, tempFd in E.
  unfold delivery, taken.
  unfold bind at 1 in E. rewrite io_Copy_run in E.
  destruct (data st) as [|b d]; [contradiction |]. clear Hd.
  cbv zeta in E. cbn [snd fst] in E.
  destruct (connWrite (env st) (b :: d)) as [n0 err]. cbn [fst snd] in *.
  destruct (copyError _ _ err) as [e|] eqn:Hce;
    [| subst r; cbn; rewrite ?app_nil_r; auto 7].
  destruct (isSocketSpaceError e);
    [| subst r; cbn; rewrite ?app_nil_r; auto 7].
  unfold bind at 1 in E. unfold bind at 1 in E.
  cbn [env set_data set_trace] in E.
  destruct (tempFile (env st)) as [f|e'];
    [| subst r; cbn; rewrite <- ?app_assoc; auto 7].
  unfold bind at 1 in E. unfold ret at 1 in E. unfold bind at 1 in E.
  rewrite io_Copy_run in E.
  cbn [data env trace set_data set_trace] in E.
  destruct (drop _ (b :: d)) as [|b' d'].
  - subst r. destruct c; cbn; rewrite <- ?app_assoc, ?app_nil_r; auto 7.
  - cbv zeta in E. cbn [fst snd] in E.
    destruct (fileWrite (env st) (b' :: d')) as [m0 ferr]. cbn [fst snd] in *.
    destruct (copyError _ _ ferr) as [e''|];
      [subst r; cbn; rewrite <- ?app_assoc; auto 7 |].
    subst r. destruct c; cbn; rewrite <- ?app_assoc, ?app_nil_r; auto 7.
Qed.

Lemma delivery_first_event (en : Env) (c : Conn) (buf : list byte) :
  exists rest,
    snd (fst (delivery en c buf))
    = EvConnWrite buf (taken (connWrite en buf) buf) (snd (connWrite en buf)) :: rest.
Proof.
  delivery_cases; cbn; eauto.
Qed.

Lemma delivery_success (en : Env) (c : Conn) (buf : list byte) :
  connWrite en buf = (length buf, None) ->
  delivery en c buf = (None, [EvConnWrite buf (length buf) None], []).
Proof.
  intros H. unfold delivery, taken. rewrite H. cbn [fst snd].
  rewrite Nat.min_id. unfold copyError. now rewrite Nat.eqb_refl.
Qed.

Lemma delivery_shape (en : Env) (c : Conn) (buf : list byte) :
  let n := taken (connWrite en buf) buf in
  let err := snd (connWrite en buf) in
  exists rest,
    snd (fst (delivery en c buf)) = EvConnWrite buf n err :: rest /\
    existsb isConnWrite rest = false /\
    existsb isTempFile rest
    = match copyError n (length buf) err with
      | Some e => isSocketSpaceError e
      | None => false
      end.
Proof.
  cbv zeta. unfold delivery. cbv zeta.
  destruct (copyError _ _ _) as [e|]; [| cbn; eauto].
  destruct (isSocketSpaceError e); [| cbn; eauto].
  destruct (tempFile en) as [f|e']; [| cbn; eauto].
  destruct (drop _ buf) as [|b d].
  - destruct c; cbn; eauto.
  - destruct (copyError _ _ _); [cbn; eauto |]. destruct c; cbn; eauto.
Qed.

Lemma delivery_plain_failure (en : Env) (c : Conn) (buf : list byte) (e : error) :
  snd (connWrite en buf) = Some e -> isSocketSpaceError e = false ->
  delivery en c buf
  = (failure (Error e), [EvConnWrite buf (taken (connWrite en buf) buf) (Some e)],
     [line (Error e)]).
Proof.
  intros He Hs. unfold delivery. cbv zeta. rewrite He. cbn [copyError].
  now rewrite Hs.
Qed.

Lemma delivery_reports (en : Env) (c : Conn) (buf : list byte) (e : error) :
  fst (fst (delivery en c buf)) = Some e ->
  exists s, e = errorString ("journal error: " +:+ s) /\
            snd (delivery en c buf) = [line s].
Proof.
  delivery_cases; cbn [fst snd failure]; intros H; try discriminate;
    injection H as <-; eauto.
Qed.

Lemma delivery_WriteMsgUnix (en : Env) (c : Conn) (buf b : list byte)
    (oob : list Z) (werr : option error) :
  In (EvWriteMsgUnix b oob werr) (snd (fst (delivery en c buf))) ->
  fst (fst (delivery en c buf)) = None /\ snd (delivery en c buf) = [].
Proof.
  delivery_cases; cbn [fst snd app In]; intros H;
    repeat (destruct H as [H|H]; try discriminate H); try destruct H; auto.
Qed.

(** ** The fallback path *)

Lemma fallback_events_staged (buf rest p q : list byte) (n m m' : nat)
    (err ferr ferr' : option error) (e : error) (r : File + error) (f f1 : File)
    (u : option error) (tail : list event) :
  rest = drop n buf ->
  (forall x, In x tail -> exists b o r, x = EvWriteMsgUnix b o r) ->
  let evs := [EvConnWrite buf n err; EvTempFile "/dev/shm/" "journal.XXXXX" r;
              EvUnlink (Name f1) u] ++
             match rest with
             | [] => []
             | _ :: _ => [EvFileWrite f1 rest m ferr]
             end ++ tail in
  In (EvConnWrite p 0 (Some e)) evs ->
  In (EvFileWrite f q m' ferr') evs ->
  p = buf /\ q = buf /\ staged f evs = take m' buf.
Proof.
  intros Hrest Htail. cbv zeta. cbn [app].
  assert (Hnot : forall x, In x tail -> forall a b c d, x <> EvFileWrite a b c d).
  { intros x Hx a b c' d E. apply Htail in Hx. destruct Hx as (?&?&?&Hx).
    rewrite Hx in E. discriminate. }
  assert (Hst : staged f tail = []).
  { clear - Htail. induction tail as [|x tail IH]; [reflexivity |].
    destruct (Htail x (or_introl eq_refl)) as (b & o & r & ->). cbn.
    apply IH. intros y Hy. apply Htail. now right. }
  intros [H|[H|[H|H]]]; try discriminate.
  2:{ exfalso. apply in_app_or in H. destruct H as [H|H].
      - destruct rest; [destruct H | destruct H as [H|[]]; discriminate].
      - apply Htail in H. destruct H as (?&?&?&?). discriminate. }
  injection H as Hbuf Hn _. subst p n. rewrite drop_0 in Hrest. subst rest.
  intros [H|[H|[H|H]]]; try discriminate.
  apply in_app_or in H. destruct H as [H|H].
  2:{ exfalso. eapply Hnot; eauto. }
  destruct buf as [|b d]; [destruct H |]. destruct H as [H|[]].
  injection H as Hf Hq Hm _. subst f1 q m.
  split; [reflexivity |]. split; [reflexivity |].
  cbn [staged app]. rewrite decide_True by reflexivity.
  now rewrite Hst, app_nil_r.
Qed.

Lemma delivery_staged (en : Env) (c : Conn) (buf p q : list byte) (e : error)
    (f : File) (m : nat) (ferr : option error) :
  let evs := snd (fst (delivery en c buf)) in
  In (EvConnWrite p 0 (Some e)) evs ->
  In (EvFileWrite f q m ferr) evs ->
  p = buf /\ q = buf /\ staged f evs = take m buf.
Proof.
  cbv zeta. unfold delivery. cbv zeta.
  destruct (copyError _ _ _) as [e1|].
  2:{ cbn. intros _ [H'|[]]. discriminate. }
  destruct (isSocketSpaceError e1).
  2:{ cbn. intros _ [H'|[]]. discriminate. }
  destruct (tempFile en) as [f1|e2].
  2:{ cbn. intros _ [H'|[H'|[]]]; discriminate. }
  match goal with
  | |- context [match ?x with Some _ => _ | None => _ end] => destruct x
  end.
  - cbn [fst snd]. rewrite <- (app_nil_r (match drop _ _ with [] => [] | _ => _ end)).
    eapply fallback_events_staged; [reflexivity | intros x []].
  - destruct c; cbn [fst snd].
    + eapply fallback_events_staged; [reflexivity |].
      intros x [<-|[]]. eauto.
    + rewrite <- (app_nil_r (match drop _ _ with [] => [] | _ => _ end)).
      eapply fallback_events_staged; [reflexivity | intros x []].
Qed.

Lemma existsb_isConnWrite_false (rest : list event) (p : list byte) (n : nat)
    (err : option error) :
  existsb isConnWrite rest = false -> ~ In (EvConnWrite p n err) rest.
Proof.
  intros H Hin. assert (E : existsb isConnWrite rest = true).
  { apply existsb_exists. eexists. split; [exact Hin | reflexivity]. }
  congruence.
Qed.

Lemma existsb_isTempFile (rest : list event) :
  existsb isTempFile rest = true <-> exists d p r, In (EvTempFile d p r) rest.
Proof.
  rewrite existsb_exists. split.
  - intros (x & Hin & Hx). destruct x; try discriminate. eauto.
  - intros (d & p & r & Hin). eexists. split; [exact Hin | reflexivity].
Qed.

(** ** Runs of Send *)

Lemma emitted_app (st st' : World) (evs : list event) :
  trace st' = trace st ++ evs -> emitted st st' = evs.
Proof. intros H. unfold emitted. rewrite H. apply drop_app_length. Qed.

Lemma emitted_same (st st' : World) : trace st' = trace st -> emitted st st' = [].
Proof. intros H. unfold emitted. rewrite H. apply drop_all. Qed.

Lemma iteration_empty_key (seed : nat) (vars : gmap string string) :
  is_Some (vars !! EmptyString) -> nonEmptyKeys (iteration seed vars) = false.
Proof.
  intros [v Hv]. destruct (nonEmptyKeys _) eqn:E; [| reflexivity].
  unfold nonEmptyKeys in E. rewrite forallb_forall in E.
  specialize (E (EmptyString, v)). cbn in E. symmetry. apply E.
  apply list_elem_of_In. rewrite iteration_Permutation.
  now apply elem_of_map_to_list.
Qed.

Lemma isSocketSpaceError_overflowClass (err : error) :
  isSocketSpaceError err = true <-> overflowClass err.
Proof.
  unfold overflowClass. split.
  - destruct err as [s|text inner|text e|text]; try discriminate.
    destruct inner as [s|text1 inner1|text1 e|text1]; try discriminate.
    cbn. intros H. apply orb_prop in H. exists text, text1, e.
    split; [reflexivity |]. destruct H as [H|H]; apply Z.eqb_eq in H; auto.
  - intros (text & text' & e & -> & [-> | ->]); reflexivity.
Qed.

Section SendRuns.

Variables (message : string) (priority : Priority).
Variables (vars : gmap string string) (st : World).

Lemma Send_connected (c : Conn) :
  conn st = Some c ->
  Send message priority vars st
  = match encodeEntry message priority vars st with
    | (Done _, st1) => deliver c st1
    | (Panic msg, st1) => (Panic msg, st1)
    end.
Proof.
  intros Hc. unfold Send. unfold bind at 1. rewrite Hc. reflexivity.
Qed.

Lemma Send_run (c : Conn) :
  conn st = Some c ->
  let kvs := iteration (hd 0%nat (seeds st)) vars in
  let r := Send message priority vars st in
  if nonEmptyKeys kvs then
    let s := delivery (env st) c (encoded message priority kvs) in
    fst r = Done (fst (fst s)) /\
    trace (snd r) = trace st ++ snd (fst s) /\
    stderr (snd r) = stderr st ++ fieldWarnings kvs ++ snd s
  else
    fst r = Panic "runtime error: index out of range" /\
    trace (snd r) = trace st /\
    stderr (snd r) = stderr st ++ fieldWarnings (reached kvs).
Proof.
  intros Hc. cbv zeta. rewrite (Send_connected c Hc).
  unfold nonEmptyKeys.
  pose proof (encodeEntry_outcome message priority vars st) as Ho.
  pose proof (encodeEntry_frame message priority vars st) as Hf.
  cbv zeta in Hf.
  destruct (encodeEntry message priority vars st) as [o st1].
  cbn [fst snd] in Ho, Hf. destruct Hf as (He & _ & Ht & Hd & Hs).
  destruct (forallb _ _) eqn:Hkeys; subst o.
  - assert (Hne : data st1 <> []).
    { rewrite Hd. intros E. apply (f_equal (@length byte)) in E.
      pose proof (encoded_length message priority
                    (iteration (hd 0%nat (seeds st)) vars)). cbn in E. lia. }
    destruct (deliver_run c st1 Hne) as (H1 & H2 & H3 & _).
    rewrite He, Hd in H1, H2, H3. rewrite Ht in H2. rewrite Hs in H3.
    rewrite (reached_all _ Hkeys) in H3. rewrite <- app_assoc in H3. auto.
  - cbn. auto.
Qed.

Lemma Send_disconnected :
  conn st = None ->
  Send message priority vars st
  = (Done (failure "could not connect to journald socket"),
     set_stderr (stderr st ++ [line "could not connect to journald socket"]) st).
Proof.
  intros Hc. unfold Send. unfold bind at 1. rewrite Hc. reflexivity.
Qed.

Lemma Send_emitted :
  let evs := emitted st (snd (Send message priority vars st)) in
  evs = [] \/
  exists c,
    conn st = Some c /\
    nonEmptyKeys (iteration (hd 0%nat (seeds st)) vars) = true /\
    let buf := header message priority ++
               encodedFields (iteration (hd 0%nat (seeds st)) vars) in
    evs = snd (fst (delivery (env st) c buf)) /\
    fst (Send message priority vars st) = Done (fst (fst (delivery (env st) c buf))) /\
    stderr (snd (Send message priority vars st))
    = stderr st ++ fieldWarnings (iteration (hd 0%nat (seeds st)) vars) ++
      snd (delivery (env st) c buf).
Proof.
  cbv zeta. destruct (conn st) as [c|] eqn:Hc.
  - pose proof (Send_run c Hc) as H. cbv zeta in H.
    destruct (nonEmptyKeys _) eqn:Hk.
    + right. exists c. destruct H as (H1 & H2 & H3).
      unfold encoded in *. rewrite (reached_all _ Hk) in *.
      rewrite (emitted_app _ _ _ H2). auto.
    + left. destruct H as (_ & H2 & _). now apply emitted_same.
  - left. rewrite (Send_disconnected Hc). now apply emitted_same.
Qed.

(** X19: every error [Send] returns was made by [journalError]: its text
    starts with "journal error: " and the same text, with a newline, is the
    last line on standard error. *)
Lemma Send_error_reported (e : error) :
  fst (Send message priority vars st) = Done (Some e) ->
  exists s, e = errorString ("journal error: " +:+ s) /\
            last (stderr (snd (Send message priority vars st))) = Some (line s).
Proof.
  destruct (conn st) as [c|] eqn:Hc.
  - pose proof (Send_run c Hc) as H. cbv zeta in H.
    destruct (nonEmptyKeys _).
    + destruct H as (H1 & _ & H3). rewrite H1, H3. intros E. injection E as E.
      destruct (delivery_reports _ _ _ _ E) as (s & -> & Hl).
      exists s. split; [reflexivity |]. rewrite Hl, app_assoc. apply last_snoc.
    + destruct H as (H1 & _). rewrite H1. discriminate.
  - rewrite (Send_disconnected Hc). cbn [fst snd]. intros E.
    injection E as <-. eexists. split; [reflexivity |]. apply last_snoc.
Qed.

End SendRuns.

Lemma fieldWarnings_In (name value : string) (kvs : list (string * string)) :
  validVarName name = Done false -> In (name, value) kvs ->
  In diagnostic (fieldWarnings kvs).
Proof.
  intros Hv Hin. unfold fieldWarnings. apply in_concat.
  exists (warnings name). split.
  - apply in_map_iff. exists (name, value). auto.
  - unfold warnings. rewrite Hv. now left.
Qed.

Lemma Permutation_short {A} (l1 l2 l : list A) :
  (length l <= 1)%nat -> l1 ≡ₚ l -> l2 ≡ₚ l -> l1 = l2.
Proof.
  intros Hlen H1 H2. destruct l as [|x [|y l]]; cbn in Hlen; try lia.
  - apply Permutation_nil_r in H1, H2. congruence.
  - apply Permutation_singleton_r in H1, H2. congruence.
Qed.

(** After [init] with a failing dial, [conn] is nil and the dial error is on
    standard error. *)
Lemma init_dial_failed (st : World) (err : error) :
  dial (env st) = inr err ->
  conn (snd (init st)) = None /\
  stderr (snd (init st)) = stderr st ++ [line (Error err)].
Proof. intros H. unfold init, bind. cbn. rewrite H. cbn. auto. Qed.

(** * The claims *)

(** C1: when the write on the socket failed with a socket-space error
    having sent nothing (a datagram goes whole or not at all), the bytes
    [Send] then writes to the staging file are those it offered to the
    socket, and they are the whole encoded entry; the file holds as many of
    them as its write took, so all of them when that write was complete. *)
Theorem fallback_stages_whole_entry (message : string) (priority : Priority)
    (vars : gmap string string) (st : World)
    (p q : list byte) (e : error) (f : File) (m : nat) (ferr : option error) :
  let evs := emitted st (snd (Send message priority vars st)) in
  In (EvConnWrite p 0 (Some e)) evs ->
  isSocketSpaceError e = true ->
  In (EvFileWrite f q m ferr) evs ->
  q = p /\
  p = header message priority ++
      encodedFields (iteration (hd 0%nat (seeds st)) vars) /\
  staged f evs = take m p /\
  (m = length q -> staged f evs = p).
Proof.
  cbv zeta. intros Hw _ Hf.
  destruct (Send_emitted message priority vars st) as [E | (c & _ & _ & E & _)];
    cbv zeta in E; rewrite E in *.
  - destruct Hw.
  - destruct (delivery_staged _ _ _ _ _ _ _ _ _ Hw Hf) as (-> & -> & ->).
    repeat split; try reflexivity. intros ->. apply firstn_all.
Qed.

Lemma fallback_stages_whole_entry_witness :
  staged journalFile
    (emitted (start fullSocket (Some UnixConn) [])
       (snd (Send "disk full" PriErr {["UNIT" := "backup.service"]}
               (start fullSocket (Some UnixConn) []))))
  = bytes ("PRIORITY=3" +:+ newline +:+ "MESSAGE=disk full" +:+ newline
             +:+ "UNIT=backup.service" +:+ newline).
Proof.
  refine (proj2 (proj2 (proj2 (fallback_stages_whole_entry
            "disk full" PriErr {["UNIT" := "backup.service"]}
            (start fullSocket (Some UnixConn) [])
            (bytes ("PRIORITY=3" +:+ newline +:+ "MESSAGE=disk full" +:+ newline
                      +:+ "UNIT=backup.service" +:+ newline))
            (bytes ("PRIORITY=3" +:+ newline +:+ "MESSAGE=disk full" +:+ newline
                      +:+ "UNIT=backup.service" +:+ newline))
            messageTooLong journalFile 49%nat None _ _ _))) _).
  - vm_compute. left. reflexivity.
  - reflexivity.
  - vm_compute. right. right. right. left. reflexivity.
  - reflexivity.
Defined.

(** C2: the result of [WriteMsgUnix] is dropped.  Whenever [Send] gets as
    far as sending the descriptor, it returns nil and adds nothing to
    standard error but the diagnostics of the names, whatever that call
    answered: an error of it is neither reported nor returned. *)
Theorem Send_drops_WriteMsgUnix_error (message : string) (priority : Priority)
    (vars : gmap string string) (st : World)
    (b : list byte) (oob : list Z) (werr : error) :
  let r := Send message priority vars st in
  In (EvWriteMsgUnix b oob (Some werr)) (emitted st (snd r)) ->
  fst r = Done None /\
  stderr (snd r)
  = stderr st ++ fieldWarnings (iteration (hd 0%nat (seeds st)) vars).
Proof.
  cbv zeta. intros Hin.
  destruct (Send_emitted message priority vars st)
    as [E | (c & _ & _ & E & Hr & Hs)]; cbv zeta in E; rewrite E in Hin.
  - destruct Hin.
  - cbv zeta in Hr, Hs. apply delivery_WriteMsgUnix in Hin as [H1 H2].
    rewrite Hr, Hs, H1, H2, app_nil_r. auto.
Qed.

Lemma Send_drops_WriteMsgUnix_error_witness :
  let r := Send "disk full" PriErr {["UNIT" := "backup.service"]}
             (start deafSocket (Some UnixConn) []) in
  last (trace (snd r)) = Some (EvWriteMsgUnix [] [7] (Some connectionRefused)) /\
  fst r = Done None /\
  stderr (snd r) = [].
Proof.
  cbv zeta. split; [vm_compute; reflexivity |].
  refine (Send_drops_WriteMsgUnix_error
            "disk full" PriErr {["UNIT" := "backup.service"]}
            (start deafSocket (Some UnixConn) []) [] [7] connectionRefused _).
  vm_compute. do 4 right. left. reflexivity.
Defined.

(** C3: the check does not compute the naming rules.  Because [&&] binds
    tighter than [||], a digit or an underscore makes [valid] true again:
    "_SECRET" begins with an underscore and "a1" has a lower-case letter,
    and both are accepted. *)
Theorem validVarName_accepts_malformed_names :
  validVarName "_SECRET" = Done true /\ wellFormed "_SECRET" = false /\
  validVarName "a1" = Done true /\ wellFormed "a1" = false.
Proof. repeat split; reflexivity. Qed.

(** C4, as stated, fails: two calls in a row with the same message, priority
    and fields leave different bytes in the buffer, and write different
    datagrams, when the run-time iterates over the map in another order the
    second time. *)
Lemma encodeEntry_order_varies :
  let st := start healthy (Some UnixConn) [0%nat; 1%nat] in
  let st1 := snd (encodeEntry "disk full" PriErr twoFields st) in
  let st2 := snd (encodeEntry "disk full" PriErr twoFields st1) in
  data st1 <> data st2 /\
  (exists b1 b2 n1 n2,
      trace (snd (Send "disk full" PriErr twoFields
                    (snd (Send "disk full" PriErr twoFields st))))
      = [EvConnWrite b1 n1 None; EvConnWrite b2 n2 None] /\ b1 <> b2).
Proof.
  cbv zeta. split.
  - vm_compute. discriminate.
  - do 4 eexists. split; [vm_compute; reflexivity | discriminate].
Qed.

(** C4, amended: for fields whose names are not empty, the buffer is the
    PRIORITY and MESSAGE fields followed by the framed caller-supplied
    fields, each once, in the order of the run-time's map iteration.  Two
    calls with the same input so agree up to the order of those fields;
    they produce the same buffer when the iteration order is the same, and
    always when there is at most one field. *)
Theorem encodeEntry_fixed_up_to_field_order (message : string)
    (priority : Priority) (vars : gmap string string) (st1 st2 : World) :
  vars !! EmptyString = None ->
  exists kvs1 kvs2,
    kvs1 ≡ₚ map_to_list vars /\
    kvs2 ≡ₚ map_to_list vars /\
    fst (encodeEntry message priority vars st1) = Done tt /\
    fst (encodeEntry message priority vars st2) = Done tt /\
    data (snd (encodeEntry message priority vars st1))
    = header message priority ++ encodedFields kvs1 /\
    data (snd (encodeEntry message priority vars st2))
    = header message priority ++ encodedFields kvs2 /\
    (hd 0%nat (seeds st1) = hd 0%nat (seeds st2) \/ (size vars <= 1)%nat ->
     data (snd (encodeEntry message priority vars st1))
     = data (snd (encodeEntry message priority vars st2))).
Proof.
  intros Hne.
  exists (iteration (hd 0%nat (seeds st1)) vars), (iteration (hd 0%nat (seeds st2)) vars).
  pose proof (iteration_nonempty_keys (hd 0%nat (seeds st1)) vars Hne) as Hk1.
  pose proof (iteration_nonempty_keys (hd 0%nat (seeds st2)) vars Hne) as Hk2.
  rewrite !encodeEntry_outcome, Hk1, Hk2, !encodeEntry_run.
  unfold encoded. rewrite (reached_all _ Hk1), (reached_all _ Hk2).
  unfold appended. cbn [data set_data set_stderr set_seeds app].
  repeat (split; [auto using iteration_Permutation |]).
  intros [Hs | Hsize].
  - now rewrite Hs.
  - rewrite <- length_map_to_list in Hsize.
    now rewrite (Permutation_short _ _ _ Hsize
                   (iteration_Permutation (hd 0%nat (seeds st1)) vars)
                   (iteration_Permutation (hd 0%nat (seeds st2)) vars)).
Qed.

Lemma encodeEntry_fixed_up_to_field_order_witness :
  twoFields !! EmptyString = None /\
  exists kvs1 kvs2,
    kvs1 ≡ₚ map_to_list twoFields /\
    kvs2 ≡ₚ map_to_list twoFields /\
    data (snd (encodeEntry "disk full" PriErr twoFields
                 (start healthy (Some UnixConn) [0%nat])))
    = header "disk full" PriErr ++ encodedFields kvs1 /\
    data (snd (encodeEntry "disk full" PriErr twoFields
                 (start healthy (Some UnixConn) [1%nat])))
    = header "disk full" PriErr ++ encodedFields kvs2.
Proof.
  split; [reflexivity |].
  destruct (encodeEntry_fixed_up_to_field_order "disk full" PriErr twoFields
              (start healthy (Some UnixConn) [0%nat])
              (start healthy (Some UnixConn) [1%nat]) eq_refl)
    as (kvs1 & kvs2 & H1 & H2 & _ & _ & H5 & H6 & _).
  exists kvs1, kvs2. auto.
Defined.

(** C5: an empty field name makes [validVarName] index past the end of the
    string: it panics, so does [appendVariable] (writing nothing, to the
    buffer or to standard error), and so does [Send] once it is connected
    and the mapping has the empty name as a key; nothing is sent then. *)
Theorem empty_name_panics :
  validVarName "" = Panic "runtime error: index out of range" /\
  (forall (w : Writer) (value : string) (st : World),
      appendVariable w "" value st = (Panic "runtime error: index out of range", st)) /\
  (forall message priority (vars : gmap string string) st c,
      conn st = Some c -> is_Some (vars !! EmptyString) ->
      fst (Send message priority vars st) = Panic "runtime error: index out of range" /\
      trace (snd (Send message priority vars st)) = trace st).
Proof.
  split; [reflexivity |]. split.
  - intros w value st. now apply appendVariable_panics.
  - intros message priority vars st c Hc Hk.
    pose proof (Send_run message priority vars st c Hc) as H. cbv zeta in H.
    rewrite (iteration_empty_key _ _ Hk) in H. destruct H as (H1 & H2 & _). auto.
Qed.

Lemma empty_name_panics_witness :
  fst (Send "disk full" PriErr {["" := "backup.service"]} (start healthy (Some UnixConn) []))
  = Panic "runtime error: index out of range".
Proof.
  destruct empty_name_panics as (_ & _ & H).
  apply (H "disk full" PriErr {["" := "backup.service"]}
           (start healthy (Some UnixConn) []) UnixConn eq_refl).
  rewrite lookup_singleton_eq. eauto.
Defined.

(** X2: for a name that is not empty and a value with a newline in it, the
    encoder returns having appended the name and a newline, eight bytes
    whose little-endian value is the length of the value, and the value and
    a newline. *)
Lemma appendVariable_multiline (name value : string) (st : World) :
  isEmpty name = false ->
  ContainsRune value nl = true ->
  len value < 2 ^ 64 ->
  exists size : list byte,
    fst (appendVariable bufferWriter name value st) = Done tt /\
    data (snd (appendVariable bufferWriter name value st))
    = data st ++ bytes name ++ bytes newline ++ size ++ bytes value ++ bytes newline /\
    length size = 8%nat /\
    littleEndian size = len value.
Proof.
  intros Hname Hnl Hlen. destruct (isEmpty_false_valid name Hname) as [b Hb].
  rewrite (appendVariable_run name value b st Hb).
  exists (toBytes (uint64 (len value))). cbn [fst snd].
  split; [reflexivity |]. split; [| split].
  - unfold appended, framing. rewrite Hnl. cbn [data set_data].
    rewrite !bytes_app, <- !app_assoc. reflexivity.
  - reflexivity.
  - unfold uint64. rewrite Z.mod_small by (unfold len in *; lia).
    apply littleEndian_toBytes. unfold len in *. lia.
Qed.

(** C6: with the empty name the encoder appends none of the three parts:
    [validVarName] panics on [name[0]] before anything is written, whatever
    the value (here one of two lines). *)
Theorem appendVariable_empty_name_appends_nothing (st : World) :
  ContainsRune twoLines nl = true /\
  appendVariable bufferWriter "" twoLines st
  = (Panic "runtime error: index out of range", st).
Proof. split; [reflexivity | now apply appendVariable_panics]. Qed.

(** C7: a message without a newline and any priority are encoded as the
    lines PRIORITY=<decimal> and MESSAGE=<message> at the start of the
    buffer, and what follows are caller-supplied fields only (all of them,
    or those before an empty name); the example of the specification is
    encoded as PRIORITY=3, MESSAGE=disk full, UNIT=backup.service, which is
    the datagram [Send] writes, and [Send] returns nil when that write
    succeeds. *)
Theorem entry_begins_with_priority_and_message :
  (forall (message : string) (priority : Priority)
          (vars : gmap string string) (st : World),
      ContainsRune message nl = false ->
      exists kvs n,
        kvs ≡ₚ map_to_list vars /\
        data (snd (encodeEntry message priority vars st))
        = bytes ("PRIORITY=" +:+ Itoa priority +:+ newline) ++
          bytes ("MESSAGE=" +:+ message +:+ newline) ++
          encodedFields (take n kvs)) /\
  (forall (st : World) (c : Conn),
      conn st = Some c ->
      let buf := bytes ("PRIORITY=3" +:+ newline +:+ "MESSAGE=disk full" +:+ newline
                          +:+ "UNIT=backup.service" +:+ newline) in
      let r := Send "disk full" PriErr {["UNIT" := "backup.service"]} st in
      data (snd (encodeEntry "disk full" PriErr {["UNIT" := "backup.service"]} st)) = buf /\
      (exists n err rest, emitted st (snd r) = EvConnWrite buf n err :: rest) /\
      (connWrite (env st) buf = (length buf, None) -> fst r = Done None)).
Proof.
  split.
  - intros message priority vars st Hm.
    exists (iteration (hd 0%nat (seeds st)) vars).
    destruct (reached_prefix (iteration (hd 0%nat (seeds st)) vars)) as [n Hn].
    exists n. split; [apply iteration_Permutation |].
    rewrite encodeEntry_run. unfold appended, encoded, header, framing.
    rewrite ContainsRune_Itoa, Hm, Hn. cbn [data set_data set_seeds set_stderr].
    rewrite <- app_assoc. reflexivity.
  - intros st c Hc. cbv zeta.
    pose proof (Send_run "disk full" PriErr {["UNIT" := "backup.service"]} st c Hc) as H.
    cbv zeta in H. rewrite iteration_singleton in H.
    change (nonEmptyKeys [("UNIT", "backup.service")]) with true in H.
    destruct H as (H1 & H2 & _). split; [| split].
    + rewrite encodeEntry_run, iteration_singleton. reflexivity.
    + destruct (delivery_first_event (env st) c
                  (encoded "disk full" PriErr [("UNIT", "backup.service")]))
        as [rest Hrest].
      rewrite Hrest in H2. rewrite (emitted_app _ _ _ H2). eauto.
    + intros Hw. rewrite H1.
      change (encoded "disk full" PriErr [("UNIT", "backup.service")])
        with (bytes ("PRIORITY=3" +:+ newline +:+ "MESSAGE=disk full" +:+ newline
                       +:+ "UNIT=backup.service" +:+ newline)).
      now rewrite (delivery_success _ _ _ Hw).
Qed.

Lemma entry_begins_with_priority_and_message_witness :
  fst (Send "disk full" PriErr {["UNIT" := "backup.service"]}
         (start healthy (Some UnixConn) [])) = Done None.
Proof.
  destruct entry_begins_with_priority_and_message as [_ H].
  destruct (H (start healthy (Some UnixConn) []) UnixConn eq_refl) as (_ & _ & H3).
  apply H3. reflexivity.
Defined.

(** C8: [Send] creates the staging file exactly when the write on the socket
    returned an error that is a [*net.OpError] holding EMSGSIZE or ENOBUFS;
    after any other error of that write it puts the error on standard error
    and returns it, having made no other system call. *)
Theorem fallback_iff_socket_space_error (message : string) (priority : Priority)
    (vars : gmap string string) (st : World) :
  let r := Send message priority vars st in
  let evs := emitted st (snd r) in
  ((exists d p f, In (EvTempFile d p f) evs) <->
   (exists p n err, In (EvConnWrite p n (Some err)) evs /\ overflowClass err)) /\
  (forall p n err,
      In (EvConnWrite p n (Some err)) evs -> ~ overflowClass err ->
      fst r = Done (Some (errorString ("journal error: " +:+ Error err))) /\
      last (stderr (snd r)) = Some (("journal error: " +:+ Error err) +:+ newline) /\
      evs = [EvConnWrite p n (Some err)]).
Proof.
  cbv zeta.
  destruct (Send_emitted message priority vars st)
    as [E | (c & _ & _ & E & Hr & Hs)].
  { cbv zeta in E. rewrite E.
    split; [split; intros (? & ? & ? & H); [destruct H | destruct H as [[] _]] |].
    intros p n err []. }
  cbv zeta in E, Hr, Hs. rewrite E. clear E. set (buf := header message priority ++ _) in *.
  destruct (delivery_shape (env st) c buf) as (rest & Hev & Hcw & Htf).
  cbv zeta in Hev, Htf. rewrite Hev.
  assert (Hfirst : forall p n err,
             In (EvConnWrite p n (Some err)) (EvConnWrite buf
               (taken (connWrite (env st) buf) buf) (snd (connWrite (env st) buf)) :: rest) ->
             p = buf /\ n = taken (connWrite (env st) buf) buf /\
             snd (connWrite (env st) buf) = Some err).
  { intros p n err [H|H].
    - injection H as -> -> ->. auto.
    - now apply existsb_isConnWrite_false in H. }
  split; [split |].
  - intros (d & p & f & [H|H]); [discriminate |].
    assert (Ht : existsb isTempFile rest = true) by (apply existsb_isTempFile; eauto).
    rewrite Ht in Htf.
    destruct (snd (connWrite (env st) buf)) as [e|] eqn:He; cbn [copyError] in Htf.
    + exists buf, (taken (connWrite (env st) buf) buf), e.
      split; [now left | now apply isSocketSpaceError_overflowClass].
    + destruct (_ =? _)%nat; discriminate.
  - intros (p & n & err & Hin & Ho).
    apply Hfirst in Hin. destruct Hin as (-> & -> & He).
    rewrite He in Htf. cbn [copyError] in Htf.
    apply isSocketSpaceError_overflowClass in Ho. rewrite Ho in Htf.
    apply existsb_isTempFile in Htf. destruct Htf as (d & p & r & Hin).
    exists d, p, r. now right.
  - intros p n err Hin Ho. apply Hfirst in Hin. destruct Hin as (-> & -> & He).
    assert (Hsp : isSocketSpaceError err = false).
    { destruct (isSocketSpaceError err) eqn:Hsp; [| reflexivity].
      apply isSocketSpaceError_overflowClass in Hsp. contradiction. }
    pose proof (delivery_plain_failure (env st) c buf err He Hsp) as Hd.
    rewrite Hd in Hr, Hs, Hev. cbn [fst snd] in Hr, Hs, Hev.
    injection Hev as Hn <-. split; [exact Hr |]. split.
    + rewrite Hs, app_assoc. apply last_snoc.
    + now rewrite He.
Qed.

Lemma fallback_iff_socket_space_error_witness :
  fst (Send "disk full" PriErr {["UNIT" := "backup.service"]}
         (start refusing (Some UnixConn) []))
  = Done (Some (errorString ("journal error: " +:+ Error connectionRefused))).
Proof.
  refine (proj1 (proj2 (fallback_iff_socket_space_error
            "disk full" PriErr {["UNIT" := "backup.service"]}
            (start refusing (Some UnixConn) []))
          (bytes ("PRIORITY=3" +:+ newline +:+ "MESSAGE=disk full" +:+ newline
                    +:+ "UNIT=backup.service" +:+ newline))
          0%nat connectionRefused _ _)).
  - vm_compute. left. reflexivity.
  - intros (text & text' & e & H & He). injection H as _ _ <-.
    destruct He; discriminate.
Defined.

(** C9: a name that breaks the naming rules by being empty is not encoded
    and the entry is not sent: on a connected socket [Send] with the empty
    name as its only field panics in [validVarName], having made no system
    call and written no diagnostic, whatever the message, the priority and
    the value. *)
Theorem empty_name_is_neither_reported_nor_sent (message value : string)
    (priority : Priority) (st : World) (c : Conn) :
  conn st = Some c ->
  wellFormed "" = false /\
  fst (Send message priority {["" := value]} st)
  = Panic "runtime error: index out of range" /\
  emitted st (snd (Send message priority {["" := value]} st)) = [] /\
  stderr (snd (Send message priority {["" := value]} st)) = stderr st.
Proof.
  intros Hc. split; [reflexivity |].
  pose proof (Send_run message priority {["" := value]} st c Hc) as H.
  cbv zeta in H. rewrite iteration_singleton in H.
  change (nonEmptyKeys [("", value)]) with false in H.
  destruct H as (H1 & H2 & H3). split; [exact H1 |].
  split; [now apply emitted_same |].
  rewrite H3. change (reached [("", value)]) with (@nil (string * string)).
  apply app_nil_r.
Qed.

Lemma empty_name_is_neither_reported_nor_sent_witness :
  conn (start healthy (Some UnixConn) []) = Some UnixConn /\
  fst (Send "disk full" PriErr {["" := "backup.service"]}
         (start healthy (Some UnixConn) []))
  = Panic "runtime error: index out of range" /\
  trace (snd (Send "disk full" PriErr {["" := "backup.service"]}
                (start healthy (Some UnixConn) []))) = [] /\
  stderr (snd (Send "disk full" PriErr {["" := "backup.service"]}
                 (start healthy (Some UnixConn) []))) = [].
Proof.
  split; [reflexivity |].
  destruct (empty_name_is_neither_reported_nor_sent "disk full" "backup.service"
              PriErr (start healthy (Some UnixConn) []) UnixConn eq_refl)
    as (_ & H1 & H2 & H3).
  split; [exact H1 |]. split; [exact H2 | exact H3].
Defined.

(** X20: whatever [validVarName] answers for a name, the pair is encoded by
    the same framing; a rejected name adds the diagnostic to standard error
    and changes nothing else.  When no name is empty, [Send] writes a
    datagram that holds the pair, and returns nil when that write
    succeeds. *)
Theorem malformed_name_is_encoded_and_sent (name value : string) (valid : bool) :
  validVarName name = Done valid ->
  (forall st : World,
      appendVariable bufferWriter name value st
      = (Done tt,
         set_data (data st ++ framing name value)
           (set_stderr (stderr st ++ if valid then [] else [diagnostic]) st))) /\
  (forall (message : string) (priority : Priority)
          (vars : gmap string string) (st : World) (c : Conn),
      conn st = Some c ->
      vars !! name = Some value ->
      vars !! EmptyString = None ->
      let r := Send message priority vars st in
      exists kvs n err rest,
        kvs ≡ₚ map_to_list vars /\
        In (name, value) kvs /\
        emitted st (snd r)
        = EvConnWrite (header message priority ++ encodedFields kvs) n err :: rest /\
        (valid = false -> In diagnostic (stderr (snd r))) /\
        (connWrite (env st) (header message priority ++ encodedFields kvs)
         = (length (header message priority ++ encodedFields kvs), None) ->
         fst r = Done None)).
Proof.
  intros Hv. split.
  - intros st. rewrite (appendVariable_run name value valid st Hv).
    unfold appended, warnings. rewrite Hv. now destruct valid.
  - intros message priority vars st c Hc Hk Hne. cbv zeta.
    pose proof (Send_run message priority vars st c Hc) as H. cbv zeta in H.
    pose proof (iteration_nonempty_keys (hd 0%nat (seeds st)) vars Hne) as Hkeys.
    fold (nonEmptyKeys (iteration (hd 0%nat (seeds st)) vars)) in Hkeys.
    rewrite Hkeys in H. destruct H as (H1 & H2 & H3).
    unfold encoded in H1, H2, H3. rewrite (reached_all _ Hkeys) in H1, H2, H3.
    set (kvs := iteration (hd 0%nat (seeds st)) vars) in *.
    assert (Hin : In (name, value) kvs).
    { apply list_elem_of_In. subst kvs. rewrite iteration_Permutation.
      now apply elem_of_map_to_list. }
    destruct (delivery_first_event (env st) c
                (header message priority ++ encodedFields kvs)) as [rest Hrest].
    exists kvs. eexists. eexists. exists rest.
    split; [apply iteration_Permutation |]. split; [exact Hin |]. split; [| split].
    + rewrite Hrest in H2. apply (emitted_app _ _ _ H2).
    + intros ->. rewrite H3. apply in_or_app. right. apply in_or_app. left.
      eapply fieldWarnings_In; eauto.
    + intros Hw. rewrite H1. now rewrite (delivery_success _ _ _ Hw).
Qed.

Lemma malformed_name_is_encoded_and_sent_witness :
  validVarName "unit" = Done false /\
  In diagnostic
     (stderr (snd (Send "disk full" PriErr {["unit" := "backup.service"]}
                     (start healthy (Some UnixConn) [])))) /\
  fst (Send "disk full" PriErr {["unit" := "backup.service"]}
         (start healthy (Some UnixConn) [])) = Done None.
Proof.
  split; [reflexivity |].
  destruct (malformed_name_is_encoded_and_sent "unit" "backup.service" false eq_refl)
    as (_ & H).
  destruct (H "disk full" PriErr {["unit" := "backup.service"]}
              (start healthy (Some UnixConn) []) UnixConn eq_refl)
    as (kvs & n & err & rest & _ & _ & _ & Hd & Hok).
  - apply lookup_singleton_eq.
  - apply lookup_singleton_ne. discriminate.
  - split; [apply Hd; reflexivity | apply Hok; reflexivity].
Defined.

(** The name "_SECRET" of the specification's example breaks the naming
    rules, yet [validVarName] accepts it: it is encoded and sent like any
    other name, with no diagnostic. *)
Lemma underscore_name_sent_without_diagnostic :
  let r := Send "disk full" PriErr {["_SECRET" := "hunter2"]}
             (start healthy (Some UnixConn) []) in
  fst r = Done None /\
  stderr (snd r) = [] /\
  trace (snd r)
  = [EvConnWrite (bytes ("PRIORITY=3" +:+ newline +:+ "MESSAGE=disk full" +:+ newline
                           +:+ "_SECRET=hunter2" +:+ newline)) 45 None].
Proof. cbv zeta. repeat split; vm_compute; reflexivity. Qed.

(** C10: when the package variable [conn] is nil, [Enabled] returns false
    and [Send] returns the error "journal error: could not connect to
    journald socket" at once: the line goes to standard error, nothing is
    encoded (buffer and map iteration untouched) and no system call is
    made. *)
Theorem Send_without_connection (message : string) (priority : Priority)
    (vars : gmap string string) (st : World) :
  conn st = None ->
  Enabled st = false /\
  fst (Send message priority vars st)
  = Done (Some (errorString "journal error: could not connect to journald socket")) /\
  stderr (snd (Send message priority vars st))
  = stderr st ++ ["journal error: could not connect to journald socket" +:+ newline] /\
  trace (snd (Send message priority vars st)) = trace st /\
  data (snd (Send message priority vars st)) = data st /\
  seeds (snd (Send message priority vars st)) = seeds st.
Proof.
  intros Hc. rewrite Send_disconnected by exact Hc.
  unfold Enabled. rewrite Hc. cbn. auto 6.
Qed.

Lemma Send_without_connection_witness :
  conn (start refusing None []) = None /\
  Enabled (start refusing None []) = false /\
  fst (Send "disk full" PriErr {["UNIT" := "backup.service"]} (start refusing None []))
  = Done (Some (errorString "journal error: could not connect to journald socket")) /\
  trace (snd (Send "disk full" PriErr {["UNIT" := "backup.service"]}
                   (start refusing None []))) = [].
Proof.
  destruct (Send_without_connection "disk full" PriErr
              {["UNIT" := "backup.service"]} (start refusing None []) eq_refl)
    as (H1 & H2 & _ & H4 & _).
  repeat split; assumption.
Defined.

(** * Further properties *)

(** ** The name check *)

Lemma lead_second_byte (b0 : Z) (width : nat) (lo hi : Z) :
  lead b0 = Some (width, lo, hi) -> 0x80 <= lo.
Proof.
  unfold lead.
  repeat match goal with
         | |- context [if ?x then _ else _] => destruct x
         end; intros H; try discriminate; injection H as _ <- _; lia.
Qed.

Lemma decode_snoc_ascii (s : list Z) (b : Z) :
  b < 0x80 -> exists l, decode (s ++ [b]) = l ++ [b].
Proof.
  intros Hb.
  assert (Hone : decode [b] = [b]).
  { cbn. apply Z.ltb_lt in Hb. now rewrite Hb. }
  assert (Hout : forall lo hi, 0x80 <= lo -> between lo b hi = false).
  { intros lo hi Hlo. unfold between. apply andb_false_iff. left.
    apply Z.leb_gt. lia. }
  remember (length s) as n eqn:Hn. revert s Hn.
  induction n as [n IH] using lt_wf_ind. intros s Hn.
  assert (Hrec : forall t, (length t < n)%nat ->
             forall r, exists l, r :: decode (t ++ [b]) = l ++ [b]).
  { intros t Ht r. destruct (IH (length t) Ht t eq_refl) as [l Hl].
    exists (r :: l). now rewrite Hl. }
  destruct s as [|b0 t]; [exists []; exact Hone |].
  cbn [length] in Hn. cbn [app decode].
  destruct (b0 <? 0x80); [apply Hrec; lia |].
  destruct (lead b0) as [[[width lo] hi]|] eqn:Hlead; [| apply Hrec; lia].
  apply lead_second_byte in Hlead.
  destruct t as [|b1 t1].
  { cbn [app]. rewrite (Hout lo hi Hlead). cbn [negb]. apply (Hrec []). cbn; lia. }
  cbn [app length] in *.
  destruct (negb (between lo b1 hi)); [apply (Hrec (b1 :: t1)); cbn; lia |].
  destruct (width =? 2)%nat; [apply Hrec; lia |].
  destruct t1 as [|b2 t2].
  { cbn [app]. rewrite (Hout 0x80 0xBF) by lia. cbn [negb].
    apply (Hrec [b1]). cbn; lia. }
  cbn [app length] in *.
  destruct (negb (between 128 b2 191)); [apply (Hrec (b1 :: b2 :: t2)); cbn; lia |].
  destruct (width =? 3)%nat; [apply Hrec; lia |].
  destruct t2 as [|b3 t3].
  { cbn [app]. rewrite (Hout 0x80 0xBF) by lia. cbn [negb].
    apply (Hrec [b1; b2]). cbn; lia. }
  cbn [app length] in *.
  destruct (negb (between 128 b3 191)); [apply (Hrec (b1 :: b2 :: b3 :: t3)); cbn; lia |].
  apply Hrec. lia.
Qed.

Lemma codes_app (s t : string) : codes (s +:+ t) = codes s ++ codes t.
Proof. induction s as [|c s IH]; simpl; [reflexivity | now rewrite IH]. Qed.

Lemma runes_snoc_ascii (prefix : string) (c : ascii) :
  code c < 0x80 -> exists l, runes (prefix +:+ String c EmptyString) = l ++ [code c].
Proof.
  intros Hc. unfold runes. rewrite codes_app. cbn [codes].
  now apply decode_snoc_ascii.
Qed.

Lemma validVarName_last (prefix : string) (c : ascii) :
  code c < 0x80 ->
  exists before : bool,
    validVarName (prefix +:+ String c EmptyString)
    = Done (validStep before (code c)).
Proof.
  intros Hc. destruct (runes_snoc_ascii prefix c Hc) as [l Hl].
  destruct prefix as [|c0 p].
  - change (EmptyString +:+ String c "") with (String c "") in *.
    unfold validVarName. rewrite Hl, fold_left_app. cbn [fold_left]. eauto.
  - change (String c0 p +:+ String c "") with (String c0 (p +:+ String c "")) in *.
    unfold validVarName. rewrite Hl, fold_left_app. cbn [fold_left]. eauto.
Qed.

(** X7: a name that ends in a digit or an underscore is accepted, whatever
    bytes come before (lower-case letters, '=', a leading underscore). *)
Lemma validVarName_ends_in_digit_or_underscore (prefix : string) (c : ascii) :
  isDigit (code c) || isUnderscore (code c) = true ->
  validVarName (prefix +:+ String c EmptyString) = Done true.
Proof.
  intros H.
  assert (Hc : code c < 0x80).
  { unfold isDigit, isUnderscore in H.
    change (code "0") with 48 in H. change (code "9") with 57 in H.
    change (code "_") with 95 in H.
    apply orb_prop in H. destruct H as [H|H]; [apply andb_prop in H as [_ H] |]; lia. }
  destruct (validVarName_last prefix c Hc) as [before ->].
  unfold validStep. rewrite <- orb_assoc, H. now rewrite orb_true_r.
Qed.

(** X8: a name that ends in an ASCII character other than A-Z, 0-9 and
    underscore is rejected, whatever comes before. *)
Lemma validVarName_ends_in_other (prefix : string) (c : ascii) :
  code c < 0x80 -> allowed c = false ->
  validVarName (prefix +:+ String c EmptyString) = Done false.
Proof.
  intros Hc H. destruct (validVarName_last prefix c Hc) as [before ->].
  unfold allowed in H. cbv zeta in H.
  apply orb_false_iff in H as [H H3]. apply orb_false_iff in H as [H1 H2].
  unfold validStep. now rewrite H1, H2, H3, andb_false_r.
Qed.

(** ** The format can be read back *)

Lemma bytes_cons (c : ascii) (s : string) :
  bytes (String c s) = byte_of_ascii c :: bytes s.
Proof. reflexivity. Qed.

Lemma scan_name (s : string) (d : byte) (rest : list byte) :
  plainName s = true -> isDelimiter d = true ->
  scan isDelimiter (bytes s ++ d :: rest) = Some (bytes s, d, rest).
Proof.
  unfold plainName. intros Hs Hd. induction s as [|c s IH].
  - cbn. now rewrite Hd.
  - rewrite bytes_cons. cbn [app scan ContainsRune] in *.
    apply andb_prop in Hs as [H1 H2].
    rewrite negb_orb in H1, H2.
    apply andb_prop in H1 as [H1 H1'], H2 as [H2 H2'].
    unfold isDelimiter at 1, isNewline. rewrite ascii_of_byte_of_ascii.
    apply negb_true_iff in H1, H2. rewrite H1, H2. cbn [orb].
    rewrite IH; [reflexivity |]. now rewrite H1', H2'.
Qed.

Lemma scan_value (s : string) (d : byte) (rest : list byte) :
  ContainsRune s nl = false -> isNewline d = true ->
  scan isNewline (bytes s ++ d :: rest) = Some (bytes s, d, rest).
Proof.
  intros Hs Hd. induction s as [|c s IH].
  - cbn. now rewrite Hd.
  - rewrite bytes_cons. cbn [app scan ContainsRune] in *.
    apply orb_false_iff in Hs as [H1 H2].
    unfold isNewline at 1. rewrite ascii_of_byte_of_ascii, H1.
    now rewrite IH.
Qed.

Lemma bytes_string (s : string) : string_of_list_byte (bytes s) = s.
Proof. apply string_of_list_byte_of_string. Qed.

Lemma readField_framing (name value : string) (rest : list byte) :
  plainName name = true ->
  (ContainsRune value nl = true -> len value < 2 ^ 64) ->
  readField (framing name value ++ rest) = Some (name, value, rest).
Proof.
  intros Hn Hv. unfold framing, readField.
  destruct (ContainsRune value nl) eqn:Hnl.
  - specialize (Hv eq_refl). rewrite bytes_app, <- !app_assoc.
    change (bytes newline ++ ?l) with (Byte.x0a :: l).
    rewrite (scan_name name Byte.x0a _ Hn eq_refl).
    change (isNewline Byte.x0a) with true. cbv iota zeta.
    rewrite (take_app_length' (toBytes _) _ 8) by reflexivity.
    rewrite (drop_app_length' (toBytes _) _ 8) by reflexivity.
    rewrite littleEndian_toBytes
      by (unfold uint64; rewrite Z.mod_small; unfold len in *; lia).
    unfold uint64. rewrite Z.mod_small by (unfold len in *; lia).
    unfold len. rewrite Nat2Z.id.
    rewrite bytes_app, <- !app_assoc.
    rewrite (drop_app_length' (bytes value)) by (now rewrite bytes_length).
    rewrite (take_app_length' (bytes value)) by (now rewrite bytes_length).
    change (bytes newline ++ rest) with (Byte.x0a :: rest).
    change (isNewline Byte.x0a) with true. cbv iota.
    now rewrite !bytes_string.
  - rewrite !bytes_app, <- !app_assoc.
    change (bytes "=" ++ ?l) with (Byte.x3d :: l).
    rewrite (scan_name name Byte.x3d _ Hn eq_refl).
    change (isNewline Byte.x3d) with false. cbv iota.
    change (bytes newline ++ rest) with (Byte.x0a :: rest).
    rewrite (scan_value value Byte.x0a rest Hnl eq_refl).
    now rewrite !bytes_string.
Qed.

Theorem encodedFields_injective (kvs1 kvs2 : list (string * string)) :
  Forall encodable kvs1 -> Forall encodable kvs2 ->
  encodedFields kvs1 = encodedFields kvs2 -> kvs1 = kvs2.
Proof.
  intros H1. revert kvs2. induction H1 as [|[n1 v1] l1 [Hn1 Hv1] _ IH];
    intros kvs2 H2 E; destruct H2 as [|[n2 v2] l2 [Hn2 Hv2] H2].
  - reflexivity.
  - apply (f_equal (@length byte)) in E. unfold encodedFields in E.
    cbn in E. rewrite length_app in E.
    pose proof (framing_length n2 v2). lia.
  - apply (f_equal (@length byte)) in E. unfold encodedFields in E.
    cbn in E. rewrite length_app in E.
    pose proof (framing_length n1 v1). lia.
  - unfold encodedFields in E. cbn [map concat fst snd] in E.
    apply (f_equal readField) in E.
    rewrite !readField_framing in E by auto.
    injection E as -> -> E. f_equal. now apply IH.
Qed.

(** X1: [toBytes] writes eight bytes, and reading them as a little-endian
    number gives back every 64-bit unsigned integer. *)
Theorem toBytes_round_trip (n : Z) :
  0 <= n < 2 ^ 64 -> length (toBytes n) = 8%nat /\ littleEndian (toBytes n) = n.
Proof. intros H. split; [reflexivity | now apply littleEndian_toBytes]. Qed.

Lemma Itoa_inj (n n' : Z) : Itoa n = Itoa n' -> n = n'.
Proof.
  unfold Itoa. intros E. apply DecimalZ.to_int_inj.
  assert (Hs : forall z, NilZero.int_of_string (NilZero.string_of_int (Z.to_int z))
                         = Some (Z.to_int z)).
  { intros z. apply NilZero.isi; destruct z; cbn; try discriminate;
      intros [= H]; now apply Unsigned.to_uint_nonnil in H. }
  apply (f_equal NilZero.int_of_string) in E. rewrite !Hs in E. congruence.
Qed.

(** X3: a message with a newline in it is encoded in the length-prefixed
    form, after the one-line PRIORITY field: MESSAGE and a newline, the
    length of the message in eight little-endian bytes, the message and a
    newline; caller-supplied fields follow. *)
Theorem multiline_message_is_length_prefixed (message : string)
    (priority : Priority) (vars : gmap string string) (st : World) :
  ContainsRune message nl = true -> len message < 2 ^ 64 ->
  exists size kvs n,
    length size = 8%nat /\ littleEndian size = len message /\
    kvs ≡ₚ map_to_list vars /\
    data (snd (encodeEntry message priority vars st))
    = bytes ("PRIORITY=" +:+ Itoa priority +:+ newline) ++
      bytes ("MESSAGE" +:+ newline) ++ size ++ bytes (message +:+ newline) ++
      encodedFields (take n kvs).
Proof.
  intros Hm Hlen.
  exists (toBytes (uint64 (len message))), (iteration (hd 0%nat (seeds st)) vars).
  destruct (reached_prefix (iteration (hd 0%nat (seeds st)) vars)) as [n Hn].
  exists n. split; [reflexivity |]. split.
  { unfold uint64. rewrite Z.mod_small by (unfold len in *; lia).
    apply littleEndian_toBytes. unfold len in *; lia. }
  split; [apply iteration_Permutation |].
  rewrite encodeEntry_run. unfold appended, encoded, header, framing.
  rewrite ContainsRune_Itoa, Hm, Hn. cbn [data set_data set_seeds set_stderr].
  rewrite <- !app_assoc. reflexivity.
Qed.

(** X5: the encoder does not escape the separator.  A name that holds an
    '=' is written exactly as the shorter name with the rest moved into the
    value, so the two cannot be told apart in the buffer. *)
Theorem separator_in_name_is_ambiguous (name v1 v2 : string) (st : World) :
  isEmpty name = false ->
  ContainsRune v1 nl = false -> ContainsRune v2 nl = false ->
  data (snd (appendVariable bufferWriter (name +:+ "=" +:+ v1) v2 st))
  = data (snd (appendVariable bufferWriter name (v1 +:+ "=" +:+ v2) st)).
Proof.
  intros Hn H1 H2.
  destruct (isEmpty_false_valid name Hn) as [b Hb].
  assert (Hn' : isEmpty (name +:+ "=" +:+ v1) = false) by (now destruct name).
  destruct (isEmpty_false_valid _ Hn') as [b' Hb'].
  rewrite (appendVariable_run _ _ b' st Hb'), (appendVariable_run _ _ b st Hb).
  unfold appended, framing. cbn [snd data set_data].
  rewrite H2, !ContainsRune_app, H1, H2. cbn [ContainsRune orb].
  change (Ascii.eqb "=" nl) with false. cbn [orb].
  rewrite !bytes_app, <- !app_assoc. reflexivity.
Qed.

Lemma map_encodable (message : string) (vars : gmap string string) (seed : nat) :
  plainEntry message vars ->
  Forall encodable (iteration seed vars) /\
  reached (iteration seed vars) = iteration seed vars.
Proof.
  intros (_ & Hne & Hall). split.
  - rewrite iteration_Permutation. apply map_Forall_to_list in Hall.
    eapply Forall_impl; [exact Hall |]. intros [k v] H. exact H.
  - apply reached_all. now apply iteration_nonempty_keys.
Qed.

(** X4: the buffer determines the entry.  When names hold no '=' and no
    newline and none is empty, two calls that leave the same bytes in the
    buffer were given the same message, the same priority and the same
    fields, whatever order the maps were iterated in. *)
Theorem encodeEntry_injective (m1 m2 : string) (p1 p2 : Priority)
    (vars1 vars2 : gmap string string) (st1 st2 : World) :
  plainEntry m1 vars1 -> plainEntry m2 vars2 ->
  data (snd (encodeEntry m1 p1 vars1 st1)) = data (snd (encodeEntry m2 p2 vars2 st2)) ->
  m1 = m2 /\ p1 = p2 /\ vars1 = vars2.
Proof.
  intros He1 He2.
  destruct (map_encodable m1 vars1 (hd 0%nat (seeds st1)) He1) as [Hf1 Hr1].
  destruct (map_encodable m2 vars2 (hd 0%nat (seeds st2)) He2) as [Hf2 Hr2].
  destruct He1 as (Hm1 & _), He2 as (Hm2 & _).
  rewrite !encodeEntry_run. unfold appended, encoded, header.
  cbn [data set_data set_seeds set_stderr app]. rewrite Hr1, Hr2, <- !app_assoc.
  intros E. apply (f_equal readField) in E.
  rewrite !readField_framing in E
    by (try reflexivity; rewrite ContainsRune_Itoa; discriminate).
  injection E as Ep E. apply Itoa_inj in Ep.
  apply (f_equal readField) in E.
  rewrite !readField_framing in E by auto.
  injection E as Em E.
  apply encodedFields_injective in E; [| assumption | assumption].
  split; [exact Em |]. split; [exact Ep |].
  apply map_to_list_inj.
  rewrite <- (iteration_Permutation (hd 0%nat (seeds st1)) vars1), E.
  apply iteration_Permutation.
Qed.

(** ** The paths of Send *)

Lemma entry_nonempty (message : string) (priority : Priority)
    (vars : gmap string string) (st : World) :
  entry message priority vars st <> [].
Proof.
  intros E. apply (f_equal (@length byte)) in E.
  unfold entry, header in E. rewrite !length_app in E.
  pose proof (framing_length "PRIORITY" (Itoa priority)). cbn in E. lia.
Qed.

Lemma Send_delivery (message : string) (priority : Priority)
    (vars : gmap string string) (st : World) (c : Conn) :
  conn st = Some c -> vars !! EmptyString = None ->
  let r := Send message priority vars st in
  let d := delivery (env st) c (entry message priority vars st) in
  fst r = Done (fst (fst d)) /\
  emitted st (snd r) = snd (fst d) /\
  stderr (snd r)
  = stderr st ++ fieldWarnings (iteration (hd 0%nat (seeds st)) vars) ++ snd d.
Proof.
  intros Hc Hne. cbv zeta.
  pose proof (Send_run message priority vars st c Hc) as H. cbv zeta in H.
  pose proof (iteration_nonempty_keys (hd 0%nat (seeds st)) vars Hne) as Hk.
  fold (nonEmptyKeys (iteration (hd 0%nat (seeds st)) vars)) in Hk.
  rewrite Hk in H. unfold encoded in H. rewrite (reached_all _ Hk) in H.
  destruct H as (H1 & H2 & H3). unfold entry.
  rewrite (emitted_app _ _ _ H2). auto.
Qed.

Lemma delivery_staging (en : Env) (c : Conn) (buf : list byte) (e : error) (f : File) :
  buf <> [] ->
  connWrite en buf = (0%nat, Some e) -> isSocketSpaceError e = true ->
  tempFile en = inl f -> fileWrite en buf = (length buf, None) ->
  let calls := [EvConnWrite buf 0 (Some e);
                EvTempFile "/dev/shm/" "journal.XXXXX" (inl f);
                EvUnlink (Name f) (unlink en (Name f));
                EvFileWrite f buf (length buf) None] in
  delivery en c buf
  = match c with
    | UnixConn =>
      (None, calls ++ [EvWriteMsgUnix [] [Fd f] (writeMsgUnix en [] [Fd f])], [])
    | OtherConn =>
      (failure "can't send file through non-Unix connection", calls,
       [line "can't send file through non-Unix connection"])
    end.
Proof.
  intros Hb Hw Hs Ht Hf. cbv zeta. unfold delivery, taken. cbv zeta.
  rewrite Hw. cbn [fst snd copyError Nat.min]. rewrite Hs, Ht. rewrite drop_0.
  destruct buf as [|b d]; [contradiction |].
  rewrite Hf. cbn [fst snd]. rewrite Nat.min_id. unfold copyError.
  rewrite Nat.eqb_refl. destruct c; reflexivity.
Qed.

(** X10: when the socket takes the datagram, [Send] returns nil having made
    one system call, the write of the whole entry, and standard error has
    gained only the diagnostics of rejected names. *)
Theorem Send_success_is_one_write (message : string) (priority : Priority)
    (vars : gmap string string) (st : World) (c : Conn) :
  conn st = Some c -> vars !! EmptyString = None ->
  let buf := entry message priority vars st in
  connWrite (env st) buf = (length buf, None) ->
  let r := Send message priority vars st in
  fst r = Done None /\
  emitted st (snd r) = [EvConnWrite buf (length buf) None] /\
  stderr (snd r) = stderr st ++ fieldWarnings (iteration (hd 0%nat (seeds st)) vars).
Proof.
  intros Hc Hne buf Hw. cbv zeta.
  destruct (Send_delivery message priority vars st c Hc Hne) as (H1 & H2 & H3).
  fold buf in H1, H2, H3. rewrite (delivery_success _ _ _ Hw) in H1, H2, H3.
  cbn [fst snd] in *. rewrite app_nil_r in H3. auto.
Qed.

(** X11: the fallback on a Unix connection.  After a socket-space error
    [Send] creates the file, unlinks it, writes the whole entry to it, and
    sends a message with an empty payload and the one descriptor of that
    file, in this order, and returns nil. *)
Theorem Send_fallback_calls (message : string) (priority : Priority)
    (vars : gmap string string) (st : World) (e : error) (f : File) :
  conn st = Some UnixConn -> vars !! EmptyString = None ->
  let buf := entry message priority vars st in
  connWrite (env st) buf = (0%nat, Some e) -> isSocketSpaceError e = true ->
  tempFile (env st) = inl f -> fileWrite (env st) buf = (length buf, None) ->
  let r := Send message priority vars st in
  fst r = Done None /\
  emitted st (snd r)
  = [EvConnWrite buf 0 (Some e);
     EvTempFile "/dev/shm/" "journal.XXXXX" (inl f);
     EvUnlink (Name f) (unlink (env st) (Name f));
     EvFileWrite f buf (length buf) None;
     EvWriteMsgUnix [] [Fd f] (writeMsgUnix (env st) [] [Fd f])] /\
  stderr (snd r) = stderr st ++ fieldWarnings (iteration (hd 0%nat (seeds st)) vars).
Proof.
  intros Hc Hne buf Hw Hs Ht Hf. cbv zeta.
  destruct (Send_delivery message priority vars st UnixConn Hc Hne) as (H1 & H2 & H3).
  unfold buf in *.
  rewrite (delivery_staging _ _ _ _ _ (entry_nonempty _ _ _ _) Hw Hs Ht Hf) in H1, H2, H3.
  cbn [fst snd app] in *. rewrite app_nil_r in H3. auto.
Qed.

(** X13: on a connection that is not a [*net.UnixConn] the fallback stages
    the entry in the file all the same and only then fails: [Send] returns
    the error of the non-Unix connection and no descriptor is sent. *)
Theorem Send_fallback_needs_unix_connection (message : string) (priority : Priority)
    (vars : gmap string string) (st : World) (e : error) (f : File) :
  conn st = Some OtherConn -> vars !! EmptyString = None ->
  let buf := entry message priority vars st in
  connWrite (env st) buf = (0%nat, Some e) -> isSocketSpaceError e = true ->
  tempFile (env st) = inl f -> fileWrite (env st) buf = (length buf, None) ->
  let r := Send message priority vars st in
  fst r = Done (Some (errorString
                  "journal error: can't send file through non-Unix connection")) /\
  emitted st (snd r)
  = [EvConnWrite buf 0 (Some e);
     EvTempFile "/dev/shm/" "journal.XXXXX" (inl f);
     EvUnlink (Name f) (unlink (env st) (Name f));
     EvFileWrite f buf (length buf) None] /\
  last (stderr (snd r))
  = Some ("journal error: can't send file through non-Unix connection" +:+ newline).
Proof.
  intros Hc Hne buf Hw Hs Ht Hf. cbv zeta.
  destruct (Send_delivery message priority vars st OtherConn Hc Hne) as (H1 & H2 & H3).
  unfold buf in *.
  rewrite (delivery_staging _ _ _ _ _ (entry_nonempty _ _ _ _) Hw Hs Ht Hf) in H1, H2, H3.
  cbn [fst snd app] in *. split; [exact H1 |]. split; [exact H2 |].
  rewrite H3, app_assoc. apply last_snoc.
Qed.

(** X14: when the staging file cannot be created, [Send] returns that
    error with the prefix, having made two system calls: the write on the
    socket and the attempt to create the file. *)
Theorem Send_staging_file_refused (message : string) (priority : Priority)
    (vars : gmap string string) (st : World) (c : Conn) (e e' : error) (n : nat) :
  conn st = Some c -> vars !! EmptyString = None ->
  let buf := entry message priority vars st in
  connWrite (env st) buf = (n, Some e) -> isSocketSpaceError e = true ->
  tempFile (env st) = inr e' ->
  let r := Send message priority vars st in
  fst r = Done (Some (errorString ("journal error: " +:+ Error e'))) /\
  emitted st (snd r)
  = [EvConnWrite buf (Nat.min n (length buf)) (Some e);
     EvTempFile "/dev/shm/" "journal.XXXXX" (inr e')] /\
  last (stderr (snd r)) = Some (("journal error: " +:+ Error e') +:+ newline).
Proof.
  intros Hc Hne buf Hw Hs Ht. cbv zeta.
  destruct (Send_delivery message priority vars st c Hc Hne) as (H1 & H2 & H3).
  fold buf in H1, H2, H3. unfold delivery, taken in H1, H2, H3. cbv zeta in H1, H2, H3.
  rewrite Hw in H1, H2, H3. cbn [fst snd copyError] in H1, H2, H3.
  rewrite Hs, Ht in H1, H2, H3. cbn [fst snd] in *.
  split; [exact H1 |]. split; [exact H2 |].
  rewrite H3, app_assoc. apply last_snoc.
Qed.

Lemma delivery_no_dial (en : Env) (c : Conn) (buf : list byte) :
  existsb isDial (snd (fst (delivery en c buf))) = false.
Proof. delivery_cases; reflexivity. Qed.

Lemma deliver_conn (c : Conn) (st : World) : conn (snd (deliver c st)) = conn st.
Proof.
  destruct (data st) as [|b d] eqn:Hd.
  - unfold deliver. unfold bind at 1. unfold connWriter. rewrite io_Copy_run, Hd.
    reflexivity.
  - assert (Hne : data st <> []) by (rewrite Hd; discriminate).
    now destruct (deliver_run c st Hne) as (_ & _ & _ & _ & H & _).
Qed.

(** X17: [Send] leaves the package variable [conn] as it was, so [Enabled]
    answers the same before and after, and it never dials: a lost daemon is
    not reconnected, a nil connection stays nil. *)
Theorem Send_keeps_connection (message : string) (priority : Priority)
    (vars : gmap string string) (st : World) :
  let st' := snd (Send message priority vars st) in
  conn st' = conn st /\ Enabled st' = Enabled st /\
  forall network address r, ~ In (EvDial network address r) (emitted st st').
Proof.
  cbv zeta.
  assert (Hc : conn (snd (Send message priority vars st)) = conn st).
  { destruct (conn st) as [c|] eqn:Hc.
    - rewrite (Send_connected _ _ _ _ c Hc).
      pose proof (encodeEntry_frame message priority vars st) as Hf. cbv zeta in Hf.
      destruct (encodeEntry message priority vars st) as [[[]|msg] st1];
        cbn [snd] in Hf; destruct Hf as (_ & H & _).
      + rewrite deliver_conn. congruence.
      + cbn. congruence.
    - now rewrite (Send_disconnected _ _ _ _ Hc). }
  split; [exact Hc |]. split; [unfold Enabled; now rewrite Hc |].
  intros network address r Hin.
  destruct (Send_emitted message priority vars st) as [E | (c & _ & _ & E & _)];
    cbv zeta in E; rewrite E in Hin; [destruct Hin |].
  pose proof (delivery_no_dial (env st) c
                (header message priority ++
                 encodedFields (iteration (hd 0%nat (seeds st)) vars))) as Hd.
  assert (Ht : existsb isDial (snd (fst (delivery (env st) c
                (header message priority ++
                 encodedFields (iteration (hd 0%nat (seeds st)) vars))))) = true).
  { apply existsb_exists. eexists. split; [exact Hin | reflexivity]. }
  congruence.
Qed.

(** X16: [Send] writes on the socket at most once, as its first system
    call: a failed write is never tried again. *)
Theorem Send_writes_socket_once (message : string) (priority : Priority)
    (vars : gmap string string) (st : World) :
  let evs := emitted st (snd (Send message priority vars st)) in
  evs = [] \/
  exists p n err rest,
    evs = EvConnWrite p n err :: rest /\
    forall p' n' err', ~ In (EvConnWrite p' n' err') rest.
Proof.
  cbv zeta.
  destruct (Send_emitted message priority vars st) as [E | (c & _ & _ & E & _)];
    cbv zeta in E; rewrite E; [now left | right].
  destruct (delivery_shape (env st) c
              (header message priority ++
               encodedFields (iteration (hd 0%nat (seeds st)) vars)))
    as (rest & Hev & Hcw & _).
  cbv zeta in Hev. rewrite Hev. do 4 eexists. split; [reflexivity |].
  intros p' n' err'. now apply existsb_isConnWrite_false.
Qed.

Lemma copyError_None (n k : nat) (err : option error) :
  copyError n k err = None -> err = None /\ n = k.
Proof.
  unfold copyError. destruct err; [discriminate |].
  destruct (n =? k)%nat eqn:E; [| discriminate].
  apply Nat.eqb_eq in E. auto.
Qed.

Lemma delivery_descriptor (en : Env) (c : Conn) (buf b : list byte)
    (oob : list Z) (r : option error) :
  In (EvWriteMsgUnix b oob r) (snd (fst (delivery en c buf))) ->
  c = UnixConn /\
  exists f before,
    tempFile en = inl f /\
    snd (fst (delivery en c buf)) = before ++ [EvWriteMsgUnix b oob r] /\
    b = [] /\ oob = [Fd f] /\
    In (EvTempFile "/dev/shm/" "journal.XXXXX" (inl f)) before /\
    In (EvUnlink (Name f) (unlink en (Name f))) before /\
    forall f' q m ferr,
      In (EvFileWrite f' q m ferr) before -> f' = f /\ m = length q /\ ferr = None.
Proof.
  unfold delivery. cbv zeta.
  destruct (copyError _ _ _) as [e|]; [| intros [H|[]]; discriminate].
  destruct (isSocketSpaceError e); [| intros [H|[]]; discriminate].
  destruct (tempFile en) as [f|e']; [| intros [H|[H|[]]]; discriminate].
  remember (drop _ buf) as rest eqn:Hrest.
  destruct rest as [|b0 d0].
  - destruct c; cbn [fst snd app In];
      [intros [H|[H|[H|[H|[]]]]] | intros [H|[H|[H|[]]]]]; try discriminate H.
    injection H as <- <- <-. split; [reflexivity |].
    exists f. eexists [_; _; _]. split; [reflexivity |].
    split; [reflexivity |].
    split; [reflexivity |]. split; [reflexivity |].
    split; [cbn; auto |]. split; [cbn; auto |].
    intros f' q m ferr [H|[H|[H|[]]]]; discriminate H.
  - destruct (copyError _ _ _) as [e''|] eqn:Hce.
    + cbn [fst snd app In]. intros [H|[H|[H|[H|[]]]]]; discriminate H.
    + apply copyError_None in Hce as [Hferr Hm].
      destruct c; cbn [fst snd app In];
        [intros [H|[H|[H|[H|[H|[]]]]]] | intros [H|[H|[H|[H|[]]]]]];
        try discriminate H.
      injection H as <- <- <-. split; [reflexivity |].
      exists f. eexists [_; _; _; _]. split; [reflexivity |]. split; [reflexivity |].
      split; [reflexivity |]. split; [reflexivity |].
      split; [cbn; auto |]. split; [cbn; auto |].
      intros f' q m ferr [H|[H|[H|[H|[]]]]]; try discriminate H.
      injection H as <- <- <- <-. auto.
Qed.

(** X12: a descriptor is sent only on a Unix connection, as the last system
    call, with an empty payload and exactly the descriptor of the file
    created in this call, after that file was unlinked; and any write to
    the file before it was complete and without error. *)
Theorem Send_descriptor_follows_staging (message : string) (priority : Priority)
    (vars : gmap string string) (st : World)
    (b : list byte) (oob : list Z) (r : option error) :
  let evs := emitted st (snd (Send message priority vars st)) in
  In (EvWriteMsgUnix b oob r) evs ->
  conn st = Some UnixConn /\
  exists f before,
    tempFile (env st) = inl f /\
    evs = before ++ [EvWriteMsgUnix b oob r] /\
    b = [] /\ oob = [Fd f] /\
    In (EvTempFile "/dev/shm/" "journal.XXXXX" (inl f)) before /\
    In (EvUnlink (Name f) (unlink (env st) (Name f))) before /\
    forall f' q m ferr,
      In (EvFileWrite f' q m ferr) before -> f' = f /\ m = length q /\ ferr = None.
Proof.
  cbv zeta. intros Hin.
  destruct (Send_emitted message priority vars st) as [E | (c & Hc & _ & E & _)];
    cbv zeta in E; rewrite E in *; [destruct Hin |].
  apply delivery_descriptor in Hin as [-> H]. auto.
Qed.

Lemma delivery_with_unlink (answer : string -> option error) (en : Env)
    (c : Conn) (buf : list byte) :
  fst (fst (delivery (with_unlink answer en) c buf)) = fst (fst (delivery en c buf)) /\
  snd (delivery (with_unlink answer en) c buf) = snd (delivery en c buf).
Proof.
  unfold delivery. cbv zeta. cbn [with_unlink connWrite tempFile fileWrite writeMsgUnix].
  repeat match goal with
         | |- context [match ?x with _ => _ end] => destruct x
         end; auto.
Qed.

(** X18: the result of [syscall.Unlink] does not matter: [Send] returns the
    same value and writes the same lines to standard error whatever
    [Unlink] answers, so a staging file that could not be unlinked is not
    reported. *)
Theorem Send_ignores_unlink_result (message : string) (priority : Priority)
    (vars : gmap string string) (st : World) (answer : string -> option error) :
  let st' := set_env (with_unlink answer (env st)) st in
  fst (Send message priority vars st') = fst (Send message priority vars st) /\
  stderr (snd (Send message priority vars st'))
  = stderr (snd (Send message priority vars st)).
Proof.
  cbv zeta. set (st' := set_env _ st).
  destruct (conn st) as [c|] eqn:Hc.
  - assert (Hc' : conn st' = Some c) by exact Hc.
    pose proof (Send_run message priority vars st c Hc) as H.
    pose proof (Send_run message priority vars st' c Hc') as H'.
    cbv zeta in H, H'. change (seeds st') with (seeds st) in H'.
    change (stderr st') with (stderr st) in H'.
    change (env st') with (with_unlink answer (env st)) in H'.
    destruct (nonEmptyKeys _).
    + destruct H as (H1 & _ & H3), H' as (H1' & _ & H3').
      destruct (delivery_with_unlink answer (env st) c
                  (encoded message priority (iteration (hd 0%nat (seeds st)) vars)))
        as [E1 E2].
      rewrite H1, H1', H3, H3', E1, E2. auto.
    + destruct H as (H1 & _ & H3), H' as (H1' & _ & H3').
      rewrite H1, H1', H3, H3'. auto.
  - assert (Hc' : conn st' = None) by exact Hc.
    rewrite (Send_disconnected _ _ _ _ Hc), (Send_disconnected _ _ _ _ Hc'). auto.
Qed.

(** X9: [init] dials once and never panics.  When the dial succeeds the
    connection is kept, [Enabled] is true and nothing is written to standard
    error; when it fails [conn] stays nil, the dial error is written with
    the prefix, [Enabled] is false, and every later [Send] returns the
    not-connected error without a system call. *)
Theorem init_decides_Enabled (st : World) :
  let st' := snd (init st) in
  fst (init st) = Done tt /\
  emitted st st' = [EvDial "unixgram" "/run/systemd/journal/socket" (dial (env st))] /\
  match dial (env st) with
  | inl c => conn st' = Some c /\ Enabled st' = true /\ stderr st' = stderr st
  | inr err =>
    conn st' = None /\ Enabled st' = false /\
    stderr st' = stderr st ++ [("journal error: " +:+ Error err) +:+ newline] /\
    forall message priority vars,
      fst (Send message priority vars st')
      = Done (Some (errorString "journal error: could not connect to journald socket")) /\
      emitted st' (snd (Send message priority vars st')) = []
  end.
Proof.
  cbv zeta. unfold init, bind. cbn [fst snd].
  destruct (dial (env st)) as [c|err] eqn:Hd; cbn [fst snd].
  - split; [reflexivity |]. split; [apply emitted_app; reflexivity |].
    cbn. auto.
  - split; [reflexivity |]. split; [apply emitted_app; reflexivity |].
    split; [reflexivity |]. split; [reflexivity |]. split; [reflexivity |].
    intros message priority vars.
    rewrite Send_disconnected by reflexivity. cbn [fst snd].
    split; [reflexivity |]. apply emitted_same. reflexivity.
Qed.

Lemma delivery_file_write (en : Env) (c : Conn) (buf q : list byte) (f : File)
    (m : nat) (ferr : option error) :
  In (EvFileWrite f q m ferr) (snd (fst (delivery en c buf))) ->
  q = drop (taken (connWrite en buf) buf) buf /\ q <> [] /\ tempFile en = inl f.
Proof.
  unfold delivery. cbv zeta.
  destruct (copyError _ _ _) as [e|]; [| intros [H|[]]; discriminate].
  destruct (isSocketSpaceError e); [| intros [H|[]]; discriminate].
  destruct (tempFile en) as [f1|e']; [| intros [H|[H|[]]]; discriminate].
  destruct (drop _ buf) as [|b0 d0].
  - destruct c; cbn [fst snd app In];
      [intros [H|[H|[H|[H|[]]]]] | intros [H|[H|[H|[]]]]]; discriminate H.
  - destruct (copyError _ _ _) as [e''|].
    + cbn [fst snd app In]. intros [H|[H|[H|[H|[]]]]]; try discriminate H.
      injection H as <- <- _ _. auto.
    + destruct c; cbn [fst snd app In];
        [intros [H|[H|[H|[H|[H|[]]]]]] | intros [H|[H|[H|[H|[]]]]]];
        try discriminate H; injection H as <- <- _ _; auto.
Qed.

(** X15: what is written to the staging file is what the socket did not
    take: if the write on the socket reported [n] bytes taken, the file is
    offered the entry without its first [n] bytes, and there is a write to
    the file only when some bytes are left. *)
Theorem Send_stages_what_the_socket_left (message : string) (priority : Priority)
    (vars : gmap string string) (st : World) (p q : list byte) (n m : nat)
    (err ferr : option error) (f : File) :
  let evs := emitted st (snd (Send message priority vars st)) in
  In (EvConnWrite p n err) evs ->
  In (EvFileWrite f q m ferr) evs ->
  q = drop n p /\ q <> [] /\ (n < length p)%nat.
Proof.
  cbv zeta. intros Hw Hf.
  destruct (Send_emitted message priority vars st) as [E | (c & _ & _ & E & _)];
    cbv zeta in E; rewrite E in *; [destruct Hw |].
  set (buf := header message priority ++ _) in *.
  destruct (delivery_shape (env st) c buf) as (rest & Hev & Hcw & _).
  cbv zeta in Hev. apply delivery_file_write in Hf as (Hq & Hne & _).
  rewrite Hev in Hw. destruct Hw as [Hw|Hw];
    [| now apply existsb_isConnWrite_false in Hw].
  injection Hw as <- <- _. split; [exact Hq |].
  split; [exact Hne |].
  destruct (Nat.lt_ge_cases (taken (connWrite (env st) buf) buf) (length buf)) as [?|Hge];
    [assumption |].
  exfalso. apply Hne. rewrite Hq. now apply drop_ge.
Qed.

(** ** Instances *)

Lemma toBytes_round_trip_witness :
  0 <= 11 < 2 ^ 64 /\ length (toBytes 11) = 8%nat /\ littleEndian (toBytes 11) = 11.
Proof. split; [lia | apply toBytes_round_trip; lia]. Defined.

Lemma validVarName_complete_witness :
  wellFormed "UNIT" = true /\ validVarName "UNIT" = Done true.
Proof. split; [reflexivity | apply validVarName_complete; reflexivity]. Defined.

Lemma validVarName_ends_in_digit_or_underscore_witness :
  validVarName ("disk full=" +:+ String "1" EmptyString) = Done true.
Proof. apply validVarName_ends_in_digit_or_underscore. reflexivity. Defined.

Lemma validVarName_ends_in_other_witness :
  validVarName ("UNI" +:+ String "t" EmptyString) = Done false.
Proof. apply validVarName_ends_in_other; reflexivity. Defined.

Lemma appendVariable_multiline_witness :
  exists size : list byte,
    fst (appendVariable bufferWriter "MESSAGE" twoLines (start healthy (Some UnixConn) []))
    = Done tt /\
    data (snd (appendVariable bufferWriter "MESSAGE" twoLines
                 (start healthy (Some UnixConn) [])))
    = [] ++ bytes "MESSAGE" ++ bytes newline ++ size ++ bytes twoLines ++ bytes newline /\
    length size = 8%nat /\
    littleEndian size = 11.
Proof.
  apply (appendVariable_multiline "MESSAGE" twoLines (start healthy (Some UnixConn) []));
    reflexivity.
Defined.

Lemma separator_in_name_is_ambiguous_witness :
  data (snd (appendVariable bufferWriter ("UNIT" +:+ "=" +:+ "a") "b"
               (start healthy (Some UnixConn) [])))
  = data (snd (appendVariable bufferWriter "UNIT" ("a" +:+ "=" +:+ "b")
                 (start healthy (Some UnixConn) []))).
Proof. apply separator_in_name_is_ambiguous; reflexivity. Defined.

Lemma plainEntry_unitField : plainEntry "disk full" unitField.
Proof.
  split; [reflexivity |]. split; [reflexivity |].
  apply map_Forall_singleton. split; reflexivity.
Qed.

Lemma encodeEntry_injective_witness :
  plainEntry "disk full" unitField /\
  ("disk full" = "disk full" /\ PriErr = PriErr /\ unitField = unitField).
Proof.
  split; [exact plainEntry_unitField |].
  apply (encodeEntry_injective "disk full" "disk full" PriErr PriErr unitField unitField
           (start healthy (Some UnixConn) [0%nat]) (start fullSocket (Some UnixConn) [1%nat])
           plainEntry_unitField plainEntry_unitField).
  vm_compute. reflexivity.
Defined.

Lemma multiline_message_is_length_prefixed_witness :
  exists size kvs n,
    length size = 8%nat /\ littleEndian size = 11 /\
    kvs ≡ₚ map_to_list (∅ : gmap string string) /\
    data (snd (encodeEntry twoLines PriInfo ∅ (start healthy (Some UnixConn) [])))
    = bytes ("PRIORITY=" +:+ Itoa PriInfo +:+ newline) ++
      bytes ("MESSAGE" +:+ newline) ++ size ++ bytes (twoLines +:+ newline) ++
      encodedFields (take n kvs).
Proof.
  apply (multiline_message_is_length_prefixed twoLines PriInfo ∅
           (start healthy (Some UnixConn) [])); reflexivity.
Defined.

Lemma Send_error_reported_witness :
  exists s,
    connectionRefused = connectionRefused /\
    errorString ("journal error: " +:+ Error connectionRefused)
    = errorString ("journal error: " +:+ s) /\
    last (stderr (snd (Send "disk full" PriErr unitField
                         (start refusing (Some UnixConn) []))))
    = Some (line s).
Proof.
  destruct (Send_error_reported "disk full" PriErr unitField
              (start refusing (Some UnixConn) [])
              (errorString ("journal error: " +:+ Error connectionRefused)))
    as (s & Hs & Hl).
  - vm_compute. reflexivity.
  - exists s. auto.
Defined.

Lemma Send_success_is_one_write_witness :
  fst (Send "disk full" PriErr unitField (start healthy (Some UnixConn) [])) = Done None /\
  emitted (start healthy (Some UnixConn) [])
    (snd (Send "disk full" PriErr unitField (start healthy (Some UnixConn) [])))
  = [EvConnWrite (entry "disk full" PriErr unitField (start healthy (Some UnixConn) []))
       (length (entry "disk full" PriErr unitField (start healthy (Some UnixConn) [])))
       None].
Proof.
  destruct (Send_success_is_one_write "disk full" PriErr unitField
              (start healthy (Some UnixConn) []) UnixConn eq_refl eq_refl eq_refl)
    as (H1 & H2 & _).
  split; assumption.
Defined.

Lemma Send_fallback_calls_witness :
  fst (Send "disk full" PriErr unitField (start fullSocket (Some UnixConn) [])) = Done None /\
  last (emitted (start fullSocket (Some UnixConn) [])
          (snd (Send "disk full" PriErr unitField (start fullSocket (Some UnixConn) []))))
  = Some (EvWriteMsgUnix [] [7] None).
Proof.
  destruct (Send_fallback_calls "disk full" PriErr unitField
              (start fullSocket (Some UnixConn) []) messageTooLong journalFile
              eq_refl eq_refl eq_refl eq_refl eq_refl eq_refl)
    as (H1 & H2 & _).
  split; [exact H1 |]. rewrite H2. reflexivity.
Defined.

Lemma Send_descriptor_follows_staging_witness :
  conn (start fullSocket (Some UnixConn) []) = Some UnixConn /\
  exists f, tempFile (env (start fullSocket (Some UnixConn) [])) = inl f /\ [7] = [Fd f].
Proof.
  destruct (Send_descriptor_follows_staging "disk full" PriErr unitField
              (start fullSocket (Some UnixConn) []) [] [7] None)
    as (Hc & f & before & Ht & _ & _ & Ho & _).
  - vm_compute. do 4 right. left. reflexivity.
  - split; [exact Hc |]. exists f. auto.
Defined.

Lemma Send_staging_file_refused_witness :
  fst (Send "disk full" PriErr unitField (start noSharedMemory (Some UnixConn) []))
  = Done (Some (errorString
       "journal error: open /dev/shm/journal.XXXXX: no such file or directory")).
Proof.
  destruct (Send_staging_file_refused "disk full" PriErr unitField
              (start noSharedMemory (Some UnixConn) []) UnixConn messageTooLong
              (otherError "open /dev/shm/journal.XXXXX: no such file or directory") 0
              eq_refl eq_refl eq_refl eq_refl eq_refl)
    as (H1 & _).
  exact H1.
Defined.

Lemma Send_fallback_needs_unix_connection_witness :
  fst (Send "disk full" PriErr unitField (start fullSocket (Some OtherConn) []))
  = Done (Some (errorString
       "journal error: can't send file through non-Unix connection")).
Proof.
  destruct (Send_fallback_needs_unix_connection "disk full" PriErr unitField
              (start fullSocket (Some OtherConn) []) messageTooLong journalFile
              eq_refl eq_refl eq_refl eq_refl eq_refl eq_refl)
    as (H1 & _).
  exact H1.
Defined.

Lemma Send_stages_what_the_socket_left_witness :
  drop 3 (entry "disk full" PriErr unitField (start halfSent (Some UnixConn) []))
  = bytes ("ORITY=3" +:+ newline +:+ "MESSAGE=disk full" +:+ newline
             +:+ "UNIT=backup.service" +:+ newline).
Proof.
  destruct (Send_stages_what_the_socket_left "disk full" PriErr unitField
              (start halfSent (Some UnixConn) [])
              (entry "disk full" PriErr unitField (start halfSent (Some UnixConn) []))
              (bytes ("ORITY=3" +:+ newline +:+ "MESSAGE=disk full" +:+ newline
                        +:+ "UNIT=backup.service" +:+ newline))
              3 46 (Some messageTooLong) None journalFile)
    as (H & _).
  - vm_compute. left. reflexivity.
  - vm_compute. do 3 right. left. reflexivity.
  - symmetry. exact H.
Defined.
